(** * FreeWill: tensor descriptors, tensor storage, the cross-entropy cost
    kernel and the gradient check

    A shallow embedding of

    - [Tensor] and [TensorBase] (Tensor.h): shape, shared storage, the cuDNN
      layout descriptor and the operations [init], [reshape], [operator=],
      [operator[]], the copy constructor and [clear];
    - [crossEntropy] and [crossEntropyCUDAKernel] (CrossEntropy_CUDA.cu);
    - [gradientCheck] (GradientCheck.h).

    Conventions.  C++ [int] and [unsigned int] are 32-bit: values are kept in
    [Z] and every conversion is written out ([int_of], [uint_of]).  An access
    outside an array, a read of a cell that was never written and a division
    by zero have no defined behaviour in C++; the embedding makes them
    explicit as [Undefined f] in the [Result] monad. *)

From Stdlib Require Import ZArith Lia Lra Reals QArith Qabs Qminmax Permutation.
From stdpp Require Import base list gmap strings.

Local Open Scope Z_scope.

(** ** Results of computations that can leave the defined behaviour *)

Inductive Fault : Type :=
| OutOfBounds (index : Z) (len : nat)  (* a[index] with a of len cells *)
| Uninitialised (index : nat)          (* read of a cell never written *)
| DivisionByZero
| NullHandle.                          (* dereference of a null data handle *)

Inductive Result (A : Type) : Type :=
| Ok (a : A)
| Undefined (f : Fault).

Arguments Ok {A} a.
Arguments Undefined {A} f.

#[global] Instance Result_ret : MRet Result := fun A a => Ok a.
#[global] Instance Result_bind : MBind Result := fun A B k m =>
  match m with
  | Ok a => k a
  | Undefined f => Undefined f
  end.

Definition isOk {A} (r : Result A) : Prop := exists a, r = Ok a.

(** A computation step that is known to succeed. *)
Ltac bind_ok :=
  match goal with
  | |- context [Ok ?a ≫= ?k] => change (Ok a ≫= k) with (k a)
  end; cbv beta iota.

(** ** 32-bit integers *)

Definition uint_of (z : Z) : Z := z mod 2 ^ 32.
Definition int_of (z : Z) : Z := (z + 2 ^ 31) mod 2 ^ 32 - 2 ^ 31.

(** ** Shape

    Shape.h is not available.  The constructor
    [Tensor(const std::initializer_list<unsigned int> &shape, ...)] fixes the
    extents as [unsigned int]; [dimension()] is used as an [int]. *)

Abbreviation Shape := (list Z).

Definition validShape (s : Shape) : Prop := Forall (fun d => 0 <= d < 2 ^ 32) s.

Definition dimension (s : Shape) : nat := length s.

(** [m_shape[i]]; an index outside the extents is an out-of-bounds access. *)
Definition shapeAt (s : Shape) (i : nat) : Result Z :=
  match s !! i with
  | Some d => Ok d
  | None => Undefined (OutOfBounds (Z.of_nat i) (length s))
  end.

(** Modelled from the spec: [Shape::size()] (Shape.h is missing): the product
    of the extents, and 0 when the sequence is empty. *)
Definition shapeSize (s : Shape) : Z :=
  match s with
  | [] => 0
  | _ => fold_right Z.mul 1 s
  end.

(** ** Raw [int] arrays obtained from [new int[n]] *)

Abbreviation IntArray := (list (option Z)).

Definition newIntArray (n : nat) : IntArray := replicate n None.

Definition readArr (a : IntArray) (i : nat) : Result Z :=
  match a !! i with
  | Some (Some v) => Ok v
  | Some None => Undefined (Uninitialised i)
  | None => Undefined (OutOfBounds (Z.of_nat i) (length a))
  end.

Definition writeArr (a : IntArray) (i : nat) (v : Z) : Result IntArray :=
  if decide (i < length a)%nat then Ok (<[i := Some v]> a)
  else Undefined (OutOfBounds (Z.of_nat i) (length a)).

(** Every cell read back, as [cudnnSetTensorNdDescriptor] does with the
    [nbDims] entries of [dimA] and [strideA]. *)
Fixpoint readAll (a : IntArray) : Result (list Z) :=
  match a with
  | [] => Ok []
  | c :: a' =>
      match c with
      | Some v => vs ← readAll a'; Ok (v :: vs)
      | None => Undefined (Uninitialised 0)
      end
  end.

(** [for (int i = first; i < first + count; ++i) body] *)
Fixpoint forLoop {S : Type} (body : nat -> S -> Result S)
    (first count : nat) (st : S) : Result S :=
  match count with
  | O => Ok st
  | Datatypes.S c => st' ← body first st; forLoop body (Datatypes.S first) c st'
  end.

(** ** Tensor::updateGPUTensorDescriptor, the computation of dimA and strideA *)

(** One iteration of the loop over [i]. *)
Definition descriptorBody (shape : Shape) (nbDims atLeastDims : nat)
    (i : nat) (st : IntArray * IntArray) : Result (IntArray * IntArray) :=
  let '(dimA, strideA) := st in
  if decide (i < nbDims)%nat then
    d ← shapeAt shape i;
    dimA' ← writeArr dimA (atLeastDims - i - 1) (int_of d);
    if decide (i = 0%nat) then
      strideA' ← writeArr strideA (atLeastDims - 1) 1;
      Ok (dimA', strideA')
    else
      p ← shapeAt shape (i - 1);
      s ← readArr strideA (atLeastDims - i);
      strideA' ← writeArr strideA (atLeastDims - 1 - i)
                   (int_of (uint_of (p * uint_of s)));
      Ok (dimA', strideA')
  else
    dimA' ← writeArr dimA (atLeastDims - i - 1) 1;
    s ← readArr strideA (atLeastDims - i);
    strideA' ← writeArr strideA (atLeastDims - 1 - i) s;
    Ok (dimA', strideA').

(** What is handed to [cudnnSetTensorNdDescriptor]: the number of dimensions
    and the two arrays. *)
Definition computeDescriptor (shape : Shape) : Result (nat * list Z * list Z) :=
  let nbDims := dimension shape in
  let atLeastDims := if decide (nbDims < 4)%nat then 4%nat else nbDims in
  '(dimA, strideA) ← forLoop (descriptorBody shape nbDims atLeastDims) 0 atLeastDims
                      (newIntArray atLeastDims, newIntArray atLeastDims);
  dims ← readAll dimA;
  strides ← readAll strideA;
  Ok (atLeastDims, dims, strides).

(** The values the loop leaves in the cells, by recurrence on the logical
    dimension [i]: the cell of [i] is [atLeastDims - 1 - i]. *)
Definition extentRec (shape : Shape) (i : nat) : Z :=
  if decide (i < dimension shape)%nat then int_of (nth i shape 0) else 1.

Fixpoint strideRec (shape : Shape) (i : nat) : Z :=
  match i with
  | O => 1
  | Datatypes.S j =>
      if decide (Datatypes.S j < dimension shape)%nat
      then int_of (uint_of (nth j shape 0 * uint_of (strideRec shape j)))
      else strideRec shape j
  end.

Definition productOf (l : list Z) : Z := fold_right Z.mul 1 l.

(** The descriptor in the words of the specification: the extent of the
    logical dimension [i] (1 in a padded slot) and its stride, the product of
    the extents before it (for a padded slot, the stride of the last logical
    dimension). *)
Definition claimedExtent (shape : Shape) (i : nat) : Z :=
  if decide (i < dimension shape)%nat then nth i shape 0 else 1.

Definition claimedStride (shape : Shape) (i : nat) : Z :=
  productOf (take (i `min` (dimension shape - 1)) shape).

Definition atLeastDimsOf (shape : Shape) : nat :=
  if decide (dimension shape < 4)%nat then 4%nat else dimension shape.

(** The claim about one shape: [max(n,4)] dimensions, and the cell of the
    logical dimension [i] in the reversed order holds [extent i] and
    [stride i]. *)
Definition descriptorHolds (extent stride : Shape -> nat -> Z) (shape : Shape) : Prop :=
  exists dims strides,
    computeDescriptor shape = Ok (dimension shape `max` 4, dims, strides)%nat /\
    length dims = (dimension shape `max` 4)%nat /\
    length strides = (dimension shape `max` 4)%nat /\
    forall i, (i < dimension shape `max` 4)%nat ->
      dims !! ((dimension shape `max` 4) - 1 - i)%nat = Some (extent shape i) /\
      strides !! ((dimension shape `max` 4) - 1 - i)%nat = Some (stride shape i).

(** The same values as the [int] arrays hold them. *)
Definition storedExtent (shape : Shape) (i : nat) : Z := int_of (claimedExtent shape i).

Definition storedStride (shape : Shape) (i : nat) : Z := int_of (claimedStride shape i).

(** Every extent and every product of extents is an [int] value. *)
Definition fitsInt (shape : Shape) : Prop :=
  Forall (fun d => 0 <= d < 2 ^ 31) shape /\
  forall i, claimedStride shape i < 2 ^ 31.

(** The state of the two arrays after the iterations [0 .. k-1]. *)
Definition filledUpTo (shape : Shape) (A k : nat) (st : IntArray * IntArray) : Prop :=
  length st.1 = A /\ length st.2 = A /\
  forall j, (j < k)%nat ->
    st.1 !! (A - 1 - j)%nat = Some (Some (extentRec shape j)) /\
    st.2 !! (A - 1 - j)%nat = Some (Some (strideRec shape j)).


(** The two lengths are kept by the writes; the cells remain to be checked. *)
Ltac fill_cases :=
  split; [simpl; rewrite length_insert; assumption|];
  split; [simpl; rewrite length_insert; assumption|];
  intros j Hj; simpl; split.

(** ** Tensor storage

    ReferenceCountedBlob.h is not available; the blob is modelled from the
    specification as a handle into a store of reference-counted blocks. *)

Inductive DeviceType : Type := CPU_NAIVE | GPU_CUDA.

#[global] Instance DeviceType_eq_dec : EqDecision DeviceType.
Proof. solve_decision. Defined.

Inductive cudnnDataType_t : Type := CUDNN_DATA_FLOAT | CUDNN_DATA_DOUBLE.

(** The element types the descriptor code distinguishes with [std::is_same]. *)
Inductive ElementKind : Type := IsFloat | IsDouble | IsOther.

(** The state of the cuDNN descriptor held in [m_gpuTensorDescriptor]. *)
Inductive Descriptor : Type :=
| DescCreated                      (* after cudnnCreateTensorDescriptor only *)
| DescSet (dataType : cudnnDataType_t) (nbDims : nat) (dimA strideA : list Z).
                                   (* after cudnnSetTensorNdDescriptor *)

Record Block (DataType : Type) : Type := mkBlock {
  refCount : nat;
  sizeInByte : Z;
  hostData : list DataType;
  deviceData : list DataType
}.

Arguments mkBlock {DataType} _ _ _ _.
Arguments refCount {DataType} _.
Arguments sizeInByte {DataType} _.
Arguments hostData {DataType} _.
Arguments deviceData {DataType} _.

(** [None]: the blob owns no storage. *)
Definition Blob : Type := option nat.

Record Tensor : Type := mkTensor {
  m_shape : Shape;
  m_name : string;
  m_data : Blob;
  m_gpuTensorDescriptor : Descriptor
}.

Section TensorOps.

Context {DataType : Type}.

(** The template parameters [DeviceUsed] and [DataType]. *)
Variable DeviceUsed : DeviceType.
Variable elementKind : ElementKind.
(** [sizeof(DataType)] *)
Variable sizeofDataType : Z.

Abbreviation Heap := (gmap nat (Block DataType)).

(** The allocator: whether a request of [n] bytes can be served in the
    current store, and what the fresh memory holds at each index. *)
Variable mallocOk : Heap -> Z -> bool.
Variable garbage : nat -> DataType.

Definition freshData (n : nat) : list DataType := garbage <$> seq 0 n.

(** Modelled from the spec: [ReferenceCountedBlob::clear] (the class is
    missing): this owner gives up its reference; the storage is released
    with the last reference; clearing an empty blob does nothing. *)
Definition blobClear (h : Heap) (b : Blob) : Heap * Blob :=
  match b with
  | None => (h, None)
  | Some id =>
      match h !! id with
      | Some blk =>
          if decide (refCount blk <= 1)%nat then (delete id h, None)
          else (<[id := mkBlock (refCount blk - 1) (sizeInByte blk)
                           (hostData blk) (deviceData blk)]> h, None)
      | None => (h, None)
      end
  end.

(** Modelled from the spec: copy construction of a [ReferenceCountedBlob]
    (the class is missing): the copy aliases the storage and the reference
    count grows by one; no byte is duplicated. *)
Definition blobCopy (h : Heap) (b : Blob) : Heap * Blob :=
  match b with
  | None => (h, None)
  | Some id =>
      (alter (fun blk => mkBlock (S (refCount blk)) (sizeInByte blk)
                           (hostData blk) (deviceData blk)) id h, Some id)
  end.

(** Modelled from the spec: assignment of a [ReferenceCountedBlob] (the
    class is missing): the new storage is aliased, the old reference is
    given up. *)
Definition blobAssign (h : Heap) (old new : Blob) : Heap * Blob :=
  let '(h1, b) := blobCopy h new in
  let '(h2, _) := blobClear h1 old in
  (h2, b).

(** Modelled from the spec: [ReferenceCountedBlob::alloc] (the class is
    missing): prior storage is released first; the request fails when the
    size is 0 or the allocator cannot serve it, and then nothing is
    allocated. *)
Definition blobAlloc (h : Heap) (b : Blob) (n : Z) : bool * Heap * Blob :=
  let '(h1, _) := blobClear h b in
  if decide (n <= 0) then (false, h1, None)
  else if mallocOk h1 n then
    let id := fresh (dom h1) in
    let cells := Z.to_nat (n / sizeofDataType) in
    (true,
     <[id := mkBlock 1 n (freshData cells)
               (match DeviceUsed with
                | GPU_CUDA => freshData cells
                | CPU_NAIVE => []
                end)]> h1,
     Some id)
  else (false, h1, None).

(** Modelled from the spec: [ReferenceCountedBlob::copyFromHostToDevice]
    (the class is missing). *)
Definition blobCopyFromHostToDevice (h : Heap) (b : Blob) : Heap :=
  match b with
  | None => h
  | Some id =>
      alter (fun blk => mkBlock (refCount blk) (sizeInByte blk)
                          (hostData blk) (hostData blk)) id h
  end.

(** The block behind [m_data.dataHandle()]. *)
Definition dataHandle (h : Heap) (b : Blob) : Result (nat * Block DataType) :=
  match b with
  | None => Undefined NullHandle
  | Some id =>
      match h !! id with
      | Some blk => Ok (id, blk)
      | None => Undefined NullHandle
      end
  end.

(** *** Tensor *)

(** [explicit Tensor(const Shape &shape, const std::string &name)] *)
Definition construct (shape : Shape) (name : string) : Tensor :=
  mkTensor shape name None DescCreated.

(** [explicit Tensor(const Tensor &in)]: the base constructor
    [TensorBase(in.m_data, in.shape())] copies the blob and creates a new
    descriptor. *)
Definition copyConstruct (t_in : Tensor) (h : Heap) : Tensor * Heap :=
  let '(h', d) := blobCopy h (m_data t_in) in
  (mkTensor (m_shape t_in) (m_name t_in) d DescCreated, h').

Definition dataTypeOf : cudnnDataType_t :=
  match elementKind with
  | IsFloat => CUDNN_DATA_FLOAT
  | IsDouble => CUDNN_DATA_DOUBLE
  | IsOther => CUDNN_DATA_FLOAT
  end.

(** [updateGPUTensorDescriptor()]: nothing for a CPU tensor; for a GPU
    tensor the two arrays are computed and the descriptor is set from them.
    An access outside the arrays makes the whole call undefined. *)
Definition updateGPUTensorDescriptor (t : Tensor) : Result Tensor :=
  match DeviceUsed with
  | GPU_CUDA =>
      '(n, dims, strides) ← computeDescriptor (m_shape t);
      Ok (mkTensor (m_shape t) (m_name t) (m_data t)
            (DescSet dataTypeOf n dims strides))
  | CPU_NAIVE => Ok t
  end.

(** [bool init()].  [unsigned int size = m_shape.size()] keeps the size in
    32 bits; [size * sizeof(DataType)] is a [size_t] product. *)
Definition init (t : Tensor) (h : Heap) : Result (bool * Tensor * Heap) :=
  let size := uint_of (shapeSize (m_shape t)) in
  let '(result, h', d) :=
    if decide (size = 0) then (false, h, m_data t)
    else blobAlloc h (m_data t) (size * sizeofDataType) in
  let t1 := mkTensor (m_shape t) (m_name t) d (m_gpuTensorDescriptor t) in
  match DeviceUsed with
  | GPU_CUDA => t' ← updateGPUTensorDescriptor t1; Ok (result, t', h')
  | CPU_NAIVE => Ok (result, t1, h')
  end.

(** [std::copy(first, first + k, dst)] with [dst] the data handle of the
    blob, seen as an array of [DataType] *)
Definition copyToHost (vals : list DataType) (t : Tensor) (h : Heap) : Result Heap :=
  '(id, blk) ← dataHandle h (m_data t);
  if decide (length vals <= length (hostData blk))%nat then
    Ok (<[id := mkBlock (refCount blk) (sizeInByte blk)
                  (vals ++ drop (length vals) (hostData blk))
                  (deviceData blk)]> h)
  else Undefined (OutOfBounds (Z.of_nat (length (hostData blk)))
                    (length (hostData blk))).

(** [bool init(const std::initializer_list<DataType> &initList)]; again
    [unsigned int size = m_shape.size()]. *)
Definition initList (vals : list DataType) (t : Tensor) (h : Heap)
  : Result (bool * Tensor * Heap) :=
  '(ok, t1, h1) ← init t h;
  if negb ok then Ok (false, t1, h1)
  else
    let size := uint_of (shapeSize (m_shape t1)) in
    let k := if decide (Z.of_nat (length vals) > size) then Z.to_nat size
             else length vals in
    h2 ← copyToHost (take k vals) t1 h1;
    match DeviceUsed with
    | GPU_CUDA =>
        let h3 := blobCopyFromHostToDevice h2 (m_data t1) in
        t2 ← updateGPUTensorDescriptor t1;
        Ok (true, t2, h3)
    | CPU_NAIVE => Ok (true, t1, h2)
    end.

(** [void operator=(const Tensor &in)] *)
Definition assign (t t_in : Tensor) (h : Heap) : Result (Tensor * Heap) :=
  let '(h', d) := blobAssign h (m_data t) (m_data t_in) in
  t' ← updateGPUTensorDescriptor
         (mkTensor (m_shape t_in) (m_name t_in) d (m_gpuTensorDescriptor t));
  Ok (t', h').

(** [DataType &operator[](unsigned int i)], used as an rvalue *)
Definition readAt (t : Tensor) (h : Heap) (i : nat) : Result DataType :=
  '(_, blk) ← dataHandle h (m_data t);
  match hostData blk !! i with
  | Some v => Ok v
  | None => Undefined (OutOfBounds (Z.of_nat i) (length (hostData blk)))
  end.

(** [DataType &operator[](unsigned int i)], used as the target of an
    assignment *)
Definition writeAt (t : Tensor) (h : Heap) (i : nat) (v : DataType) : Result Heap :=
  '(id, blk) ← dataHandle h (m_data t);
  if decide (i < length (hostData blk))%nat then
    Ok (<[id := mkBlock (refCount blk) (sizeInByte blk)
                  (<[i := v]> (hostData blk)) (deviceData blk)]> h)
  else Undefined (OutOfBounds (Z.of_nat i) (length (hostData blk))).

(** [bool reshape(const Shape &newShape)] *)
Definition reshape (newShape : Shape) (t : Tensor) : Result (bool * Tensor) :=
  if decide (shapeSize newShape = shapeSize (m_shape t)) then
    t' ← updateGPUTensorDescriptor
           (mkTensor newShape (m_name t) (m_data t) (m_gpuTensorDescriptor t));
    Ok (true, t')
  else Ok (false, t).

(** [void TensorBase::clear()] *)
Definition clear (t : Tensor) (h : Heap) : Tensor * Heap :=
  let '(h', d) := blobClear h (m_data t) in
  (mkTensor (m_shape t) (m_name t) d (m_gpuTensorDescriptor t), h').

(** The descriptor describes the shape the tensor has now. *)
Definition describesShape (t : Tensor) : Prop :=
  match computeDescriptor (m_shape t) with
  | Ok (n, dims, strides) =>
      m_gpuTensorDescriptor t = DescSet dataTypeOf n dims strides
  | Undefined _ => False
  end.

End TensorOps.

(** ** The cross-entropy cost kernel (CrossEntropy_CUDA.cu)

    [DataType] is [float] (or [double]); its values and the function [log]
    are taken in the real numbers.  The three device arrays are lists;
    [input] and [label] are only read.  [atomicAdd] makes the update of a
    cost cell by one thread indivisible, and a thread does nothing else to
    the shared state, so that a run of the grid is the run of its threads
    one after the other in some order: the order is the parameter [sched] of
    the launch.  A launch of no block runs no thread; the macro
    [CHECK_CUDA_ERROR], which reports what the runtime says about it, is not
    available. *)

Definition lookupZ {A : Type} (l : list A) (z : Z) : Result A :=
  if decide (0 <= z) then
    match l !! Z.to_nat z with
    | Some a => Ok a
    | None => Undefined (OutOfBounds z (length l))
    end
  else Undefined (OutOfBounds z (length l)).

(** The summand of one position. *)
Definition crossEntropyTerm (l x : R) : R :=
  (- l * ln x - (1 - l) * ln (1 - x))%R.

(** [__global__ void crossEntropy(input, label, cost, labelSize, batchSize)]
    run by the thread [threadIdx] of block [blockIdx]. *)
Definition crossEntropy (input label : list R) (labelSize batchSize : Z)
    (blockDim : Z) (blockIdx threadIdx : Z) (cost : list R) : Result (list R) :=
  let id := int_of (uint_of (blockIdx * blockDim + threadIdx)) in
  if decide (labelSize = 0) then Undefined DivisionByZero
  else
    let idInVector := int_of (uint_of id mod labelSize) in
    let batchId := int_of (uint_of id / labelSize) in
    let p := uint_of (batchId * labelSize + idInVector) in
    l ← lookupZ label p;
    x ← lookupZ input p;
    let temp := crossEntropyTerm l x in
    c ← lookupZ cost batchId;
    Ok (<[Z.to_nat batchId := (c + temp)%R]> cost).

Definition blockSize : Z := 1024.

(** [gridSize] as computed by [crossEntropyCUDAKernel]. *)
Definition gridSizeOf (labelSize batchSize : Z) : Z :=
  let n := uint_of (labelSize * batchSize) in
  let gridSize := int_of (n / blockSize) in
  if decide (n mod blockSize <> 0) then int_of (gridSize + 1) else gridSize.

(** [cudaMemset(cost, 0, sizeof(DataType) * batchSize)] *)
Definition memsetZero (cost : list R) (batchSize : Z) : Result (list R) :=
  if decide (batchSize <= Z.of_nat (length cost)) then
    Ok (replicate (Z.to_nat batchSize) 0%R ++ drop (Z.to_nat batchSize) cost)
  else Undefined (OutOfBounds (Z.of_nat (length cost)) (length cost)).

(** The threads of a launch [<<<gridSize, blockDim>>>]. *)
Definition gridThreads (gridSize blockDim : Z) : list (Z * Z) :=
  b ← seqZ 0 gridSize; (fun t => (b, t)) <$> seqZ 0 blockDim.

(** A schedule runs every thread of the grid once. *)
Definition isSchedule (gridSize blockDim : Z) (sched : list (Z * Z)) : Prop :=
  Permutation sched (gridThreads gridSize blockDim).

Fixpoint runThreads (kernel : Z -> Z -> list R -> Result (list R))
    (sched : list (Z * Z)) (cost : list R) : Result (list R) :=
  match sched with
  | [] => Ok cost
  | (b, t) :: rest => cost' ← kernel b t cost; runThreads kernel rest cost'
  end.

(** [__host__ void crossEntropyCUDAKernel(input, label, cost, labelSize,
    batchSize)], its launch run in the order [sched]. *)
Definition crossEntropyCUDAKernel (sched : list (Z * Z)) (input label cost : list R)
    (labelSize batchSize : Z) : Result (list R) :=
  cost0 ← memsetZero cost batchSize;
  runThreads (crossEntropy input label labelSize batchSize blockSize) sched cost0.

(** The term of the flat position [p]. *)
Definition termAt (input label : list R) (p : Z) : R :=
  crossEntropyTerm (nth (Z.to_nat p) label 0%R) (nth (Z.to_nat p) input 0%R).

Definition sumR (l : list R) : R := foldr Rplus 0%R l.

(** The cost of batch [b] in the words of the specification: the sum over the
    [labelSize] positions of the batch. *)
Definition batchCost (input label : list R) (labelSize : Z) (b : Z) : R :=
  sumR ((fun j => termAt input label (b * labelSize + j)) <$> seqZ 0 labelSize).

(** The global index of a thread, and what the threads [ids] add to the cost
    cell [c]. *)
Definition threadId (bt : Z * Z) : Z := bt.1 * blockSize + bt.2.

Definition contribution (input label : list R) (labelSize : Z) (ids : list Z) (c : Z) : R :=
  sumR (termAt input label <$> filter (fun id => id / labelSize = c) ids).

(** ** The gradient check (GradientCheck.h)

    [std::max(1, e)] is the function template
    [const T& max(const T&, const T&)] with both arguments of one type [T];
    its first argument is the [int] literal 1, so the second one is an [int]
    as well.  That argument is [std::max(abs(numgrad), abs(gradientAtX[i]))]:
    the function [abs] called here returns [int], it is [int abs(int)], and
    its [ScalarType] argument is converted to [int].  The quotient
    [abs(...) / std::max(...)] is therefore a quotient of two [int]s, and it
    is converted to [ScalarType] when it is stored in [reldiff].

    The operations of [ScalarType] that the function uses: *)

Class ScalarType (S : Type) : Type := {
  sc_add : S -> S -> S;               (* a + b *)
  sc_sub : S -> S -> S;               (* a - b *)
  sc_div_2eps : S -> S -> S;          (* ScalarType(d / (2.0 * epsilon)) *)
  sc_to_int : S -> Z;                 (* the conversion to int *)
  sc_int_gt_tenth : Z -> S -> bool;   (* ScalarType(r) > epsilon * 0.1, r an int *)
  sc_value : S -> Q                   (* the number a value stands for *)
}.

(** [ScalarType = int].  The quotient by [2.0 * epsilon] is computed in
    [double] and truncated when stored; for [int] operands this is the
    truncated integer quotient.  An [int] [r] exceeds the [double]
    [epsilon * 0.1] exactly when [10 * r > epsilon].  Signed overflow is
    undefined and outside the model. *)
#[global] Instance ScalarType_int : ScalarType Z := {
  sc_add := Z.add;
  sc_sub := Z.sub;
  sc_div_2eps := fun d eps => Z.quot d (2 * eps);
  sc_to_int := fun z => z;
  sc_int_gt_tenth := fun r eps => eps <? 10 * r;
  sc_value := inject_Z
}.

(** A floating-point [ScalarType] with its arithmetic taken exactly, in the
    rationals; the conversion to [int] truncates towards zero.  The rounding
    of [double] is not modelled: where a rounded intermediate result falls
    on the other side of an integer than the exact one, the truncation, and
    with it the test, can differ.  The instance is used in closed runs only;
    no general statement rests on it. *)
#[global] Instance ScalarType_exact : ScalarType Q := {
  sc_add := Qplus;
  sc_sub := Qminus;
  sc_div_2eps := fun d eps => (d / (2 * eps))%Q;
  sc_to_int := fun q => Z.quot (Qnum q) (Zpos (Qden q));
  sc_int_gt_tenth := fun r eps => negb (Qle_bool (inject_Z r) (eps * (1 # 10)));
  sc_value := fun q => q
}.

Section GradientCheck.

Context {S : Type} `{ScalarType S}.

(** [func]: the value it returns and the gradient it writes. *)
Variable func : list S -> S * list S.

Definition vectorAt (v : list S) (i : nat) : Result S :=
  match v !! i with
  | Some a => Ok a
  | None => Undefined (OutOfBounds (Z.of_nat i) (length v))
  end.

(** [abs(numgrad - g) / std::max(1, std::max(abs(numgrad), abs(g)))] *)
Definition relDiff (numgrad g : S) : Z :=
  Z.quot (Z.abs (sc_to_int (sc_sub numgrad g)))
         (Z.max 1 (Z.max (Z.abs (sc_to_int numgrad)) (Z.abs (sc_to_int g)))).

(** The loop of [gradientCheck] from [i] on, [count] coordinates to go. *)
Fixpoint gradientLoop (x : list S) (epsilon : S) (gradientAtX : list S)
    (i count : nat) (x_1 x_2 : list S) : Result bool :=
  match count with
  | O => Ok true
  | Datatypes.S c =>
      xi ← vectorAt x i;
      let x_1' := <[i := sc_sub xi epsilon]> x_1 in
      let x_2' := <[i := sc_add xi epsilon]> x_2 in
      let valueAtX1 := fst (func x_1') in
      let valueAtX2 := fst (func x_2') in
      let numgrad := sc_div_2eps (sc_sub valueAtX2 valueAtX1) epsilon in
      g ← vectorAt gradientAtX i;
      let reldiff := relDiff numgrad g in
      if sc_int_gt_tenth reldiff epsilon then Ok false
      else gradientLoop x epsilon gradientAtX (Datatypes.S i) c
             (<[i := xi]> x_1') (<[i := xi]> x_2')
  end.

(** [bool gradientCheck(func, x, epsilon)] *)
Definition gradientCheck (x : list S) (epsilon : S) : Result bool :=
  let gradientAtX := snd (func x) in
  gradientLoop x epsilon gradientAtX 0 (length x) x x.


(** The check in the words of the specification: the relative error
    [|n - g| / max(1, |n|, |g|)] of the central difference [n] against the
    analytic gradient [g] does not exceed [epsilon * 0.1]. *)
Definition claimedRelativeError (n g : Q) : Q :=
  (Qabs (n - g) / Qmax 1 (Qmax (Qabs n) (Qabs g)))%Q.

Definition claimedNumericGradient (x : list S) (epsilon : S) (i : nat) : Q :=
  match x !! i with
  | Some xi =>
      ((sc_value (fst (func (<[i := sc_add xi epsilon]> x)))
        - sc_value (fst (func (<[i := sc_sub xi epsilon]> x))))
       / (2 * sc_value epsilon))%Q
  | None => 0%Q
  end.

Definition claimedCoordinatePasses (x : list S) (epsilon : S) (i : nat) : bool :=
  match snd (func x) !! i with
  | Some g =>
      Qle_bool (claimedRelativeError (claimedNumericGradient x epsilon i) (sc_value g))
               (sc_value epsilon * (1 # 10))
  | None => false
  end.

Definition claimedGradientCheck (x : list S) (epsilon : S) : bool :=
  forallb (claimedCoordinatePasses x epsilon) (seq 0 (length x)).

End GradientCheck.

(** Two functions to check: the value [x0 * x0] with the gradient [x0]
    written in place of [2 * x0], for [ScalarType = int] and for the exact
    scalars. *)
Definition squareInt_wrongGradient (x : list Z) : Z * list Z :=
  match x with
  | x0 :: _ => (x0 * x0, [x0])
  | [] => (0, [])
  end.

Definition squareExact_wrongGradient (x : list Q) : Q * list Q :=
  match x with
  | x0 :: _ => ((x0 * x0)%Q, [x0])
  | [] => (0%Q, [])
  end.

(** The sum of the squares with its gradient [2 * x], for [ScalarType = int]. *)
Definition sumSquaresInt (x : list Z) : Z * list Z :=
  (foldr Z.add 0 ((fun a => a * a) <$> x), (fun a => 2 * a) <$> x).

(** ** More of Tensor.h: randomize and the output operator *)

Section TensorMore.

Context {DataType : Type}.
Variable DeviceUsed : DeviceType.

(** The random source [RandomNumberGenerator::getSingleton()] is not
    available: it is a state [Gen] and the function [getRandom], which
    returns a value and the next state. *)
Context {Gen : Type}.
Variable getRandom : Gen -> DataType * Gen.

(** The first [n] values of the source from the state [g], and the state
    after them. *)
Fixpoint draws (n : nat) (g : Gen) : list DataType * Gen :=
  match n with
  | O => ([], g)
  | Datatypes.S k =>
      let '(v, g1) := getRandom g in
      let '(vs, g2) := draws k g1 in
      (v :: vs, g2)
  end.

(** [bits[n] = RandomNumberGenerator::getSingleton().getRandom<DataType>()] *)
Definition randomizeBody (t : Tensor) (n : nat)
    (st : gmap nat (Block DataType) * Gen) : Result (gmap nat (Block DataType) * Gen) :=
  let '(h, g) := st in
  let '(v, g') := getRandom g in
  h' ← writeAt t h n v;
  Ok (h', g').

(** [void randomize()], with [unsigned int size = m_shape.size()] *)
Definition randomize (t : Tensor) (h : gmap nat (Block DataType)) (g : Gen)
  : Result (gmap nat (Block DataType) * Gen) :=
  let size := uint_of (shapeSize (m_shape t)) in
  '(h', g') ← forLoop (randomizeBody t) 0 (Z.to_nat size) (h, g);
  match DeviceUsed with
  | GPU_CUDA => Ok (blobCopyFromHostToDevice h' (m_data t), g')
  | CPU_NAIVE => Ok (h', g')
  end.

(** How the stream writes an element and an [unsigned int]. *)
Variable showData : DataType -> string.
Variable showUInt : Z -> string.

(** [stream << bits[n] << ((n == size-1) ? "}" : ", ")] *)
Definition printBody (t : Tensor) (h : gmap nat (Block DataType)) (size : Z)
    (n : nat) (stream : string) : Result string :=
  v ← readAt t h n;
  Ok ((stream +:+ showData v)
      +:+ (if decide (Z.of_nat n = uint_of (size - 1)) then "}" else ", ")).

(** [std::ostream& operator<< (std::ostream& stream, Tensor &tensor)]: the
    text of the stream after the call. *)
Definition printTensor (t : Tensor) (h : gmap nat (Block DataType)) (stream : string)
  : Result string :=
  let size := uint_of (shapeSize (m_shape t)) in
  forLoop (printBody t h size) 0 (Z.to_nat size)
    ((stream +:+ showUInt size) +:+ " {").

End TensorMore.


(** ** What a descriptor addresses *)

Definition sumZ (l : list Z) : Z := foldr Z.add 0 l.

(** The largest offset reached through a descriptor with the extents [dimA]
    and the strides [strideA]: every index at its last value. *)
Definition largestOffset (dimA strideA : list Z) : Z :=
  sumZ (zip_with (fun d s => (d - 1) * s) dimA strideA).


(** One [reshape] after the other, whatever each of them returns. *)
Fixpoint reshapeAll (dev : DeviceType) (kind : ElementKind) (shapes : list Shape)
    (t : Tensor) : Result Tensor :=
  match shapes with
  | [] => Ok t
  | s :: rest => r ← reshape dev kind s t; reshapeAll dev kind rest r.2
  end.

(** * Properties *)

(** ** The monad and the 32-bit conversions *)

Lemma bind_Ok {A B : Type} (a : A) (k : A -> Result B) : (Ok a ≫= k) = k a.
Proof. reflexivity. Qed.

Lemma bind_Undefined {A B : Type} (f : Fault) (k : A -> Result B) :
  (Undefined f ≫= k) = Undefined f.
Proof. reflexivity. Qed.

Lemma int_of_small z : - 2 ^ 31 <= z < 2 ^ 31 -> int_of z = z.
Proof.
  intros Hz. unfold int_of. rewrite Z.mod_small; lia.
Qed.

Lemma uint_of_small z : 0 <= z < 2 ^ 32 -> uint_of z = z.
Proof. intros Hz. unfold uint_of. now rewrite Z.mod_small. Qed.

Lemma int_of_congr x y : x mod 2 ^ 32 = y mod 2 ^ 32 -> int_of x = int_of y.
Proof.
  intros Hxy. unfold int_of.
  rewrite <- (Zplus_mod_idemp_l x), <- (Zplus_mod_idemp_l y), Hxy. reflexivity.
Qed.

Lemma int_of_mod z : int_of z mod 2 ^ 32 = z mod 2 ^ 32.
Proof.
  unfold int_of.
  rewrite Zminus_mod, Zmod_mod, <- Zminus_mod.
  f_equal. lia.
Qed.

Lemma int_of_mul_wrapped d p :
  int_of (uint_of (d * uint_of (int_of p))) = int_of (d * p).
Proof.
  apply int_of_congr. unfold uint_of.
  rewrite Zmod_mod, Zmult_mod_idemp_r.
  rewrite <- (Zmult_mod_idemp_r (int_of p)), int_of_mod, Zmult_mod_idemp_r.
  reflexivity.
Qed.


(** ** The descriptor computation *)

Lemma readAll_fmap_Some (vs : list Z) : readAll (Some <$> vs) = Ok vs.
Proof.
  induction vs as [|v vs IH]; [reflexivity|].
  rewrite fmap_cons. cbn [readAll]. rewrite IH. reflexivity.
Qed.

Lemma shapeAt_lt (s : Shape) (i : nat) :
  (i < length s)%nat -> shapeAt s i = Ok (nth i s 0).
Proof.
  intros Hi. unfold shapeAt.
  destruct (lookup_lt_is_Some_2 s i Hi) as [d Hd].
  rewrite Hd. f_equal. symmetry. apply nth_lookup_Some with (d := 0) in Hd. exact Hd.
Qed.

Lemma writeArr_lt (a : IntArray) (i : nat) (v : Z) :
  (i < length a)%nat -> writeArr a i v = Ok (<[i := Some v]> a).
Proof. intros Hi. unfold writeArr. rewrite decide_True; [reflexivity|assumption]. Qed.

Lemma readArr_Some (a : IntArray) (i : nat) (v : Z) :
  a !! i = Some (Some v) -> readArr a i = Ok v.
Proof. intros Hi. unfold readArr. rewrite Hi. reflexivity. Qed.

Lemma descriptorBody_step (shape : Shape) (A k : nat) (st : IntArray * IntArray) :
  (1 <= dimension shape)%nat -> (dimension shape <= A)%nat -> (k < A)%nat ->
  filledUpTo shape A k st ->
  exists st', descriptorBody shape (dimension shape) A k st = Ok st' /\
              filledUpTo shape A (Datatypes.S k) st'.
Proof.
  intros Hn HA Hk.
  destruct st as [dimA strideA].
  intros (Hld & Hls & Hfill). simpl in Hld, Hls, Hfill.
  assert (Hprev : forall j, (j < k)%nat -> (A - 1 - j)%nat <> (A - 1 - k)%nat) by lia.
  unfold descriptorBody.
  destruct (decide (k < dimension shape)%nat) as [Hkn|Hkn].
  - rewrite (shapeAt_lt shape k) by exact Hkn. bind_ok.
    rewrite (writeArr_lt dimA) by lia. bind_ok.
    destruct (decide (k = 0%nat)) as [->|Hk0].
    + rewrite (writeArr_lt strideA) by lia. bind_ok.
      eexists; split; [reflexivity|].
      fill_cases.
      all: assert (j = 0%nat) as -> by lia.
      * replace (A - 0 - 1)%nat with (A - 1 - 0)%nat by lia.
        rewrite list_lookup_insert_eq by lia.
        unfold extentRec. rewrite decide_True by exact Hkn. reflexivity.
      * replace (A - 1 - 0)%nat with (A - 1)%nat by lia.
        rewrite list_lookup_insert_eq by lia. reflexivity.
    + rewrite (shapeAt_lt shape (k - 1)) by (unfold dimension in Hkn; lia).
      bind_ok.
      assert (Hrd : strideA !! (A - k)%nat = Some (Some (strideRec shape (k - 1)))).
      { destruct (Hfill (k - 1)%nat ltac:(lia)) as [_ Hs].
        replace (A - 1 - (k - 1))%nat with (A - k)%nat in Hs by lia. exact Hs. }
      rewrite (readArr_Some _ _ _ Hrd); bind_ok.
      rewrite (writeArr_lt strideA) by lia. bind_ok.
      eexists; split; [reflexivity|].
      fill_cases.
      all: destruct (decide (j = k)) as [->|Hjk].
      * replace (A - k - 1)%nat with (A - 1 - k)%nat by lia.
        rewrite list_lookup_insert_eq by lia.
        unfold extentRec. rewrite decide_True by exact Hkn. reflexivity.
      * replace (A - k - 1)%nat with (A - 1 - k)%nat by lia.
        rewrite list_lookup_insert_ne by (apply not_eq_sym, Hprev; lia).
        apply Hfill. lia.
      * rewrite list_lookup_insert_eq by lia.
        destruct k as [|k']; [lia|]. simpl.
        rewrite decide_True by exact Hkn.
        replace (k' - 0)%nat with k' by lia. reflexivity.
      * rewrite list_lookup_insert_ne by (apply not_eq_sym, Hprev; lia).
        apply Hfill. lia.
  - assert (Hk0 : k <> 0%nat) by lia.
    rewrite (writeArr_lt dimA) by lia. bind_ok.
    assert (Hrd : strideA !! (A - k)%nat = Some (Some (strideRec shape (k - 1)))).
    { destruct (Hfill (k - 1)%nat ltac:(lia)) as [_ Hs].
      replace (A - 1 - (k - 1))%nat with (A - k)%nat in Hs by lia. exact Hs. }
    rewrite (readArr_Some _ _ _ Hrd); bind_ok.
    rewrite (writeArr_lt strideA) by lia. bind_ok.
    eexists; split; [reflexivity|].
    fill_cases.
    all: destruct (decide (j = k)) as [->|Hjk].
    + replace (A - k - 1)%nat with (A - 1 - k)%nat by lia.
      rewrite list_lookup_insert_eq by lia.
      unfold extentRec. rewrite decide_False by exact Hkn. reflexivity.
    + replace (A - k - 1)%nat with (A - 1 - k)%nat by lia.
      rewrite list_lookup_insert_ne by (apply not_eq_sym, Hprev; lia).
      apply Hfill. lia.
    + rewrite list_lookup_insert_eq by lia.
      destruct k as [|k']; [lia|]. simpl.
      rewrite decide_False by exact Hkn.
      replace (k' - 0)%nat with k' by lia. reflexivity.
    + rewrite list_lookup_insert_ne by (apply not_eq_sym, Hprev; lia).
      apply Hfill. lia.
Qed.

Lemma descriptorLoop_fills (shape : Shape) (A : nat) :
  (1 <= dimension shape)%nat -> (dimension shape <= A)%nat ->
  forall count first st,
    (first + count <= A)%nat ->
    filledUpTo shape A first st ->
    exists st', forLoop (descriptorBody shape (dimension shape) A) first count st = Ok st' /\
                filledUpTo shape A (first + count) st'.
Proof.
  intros Hn HA. induction count as [|c IH]; intros first st Hle Hfill.
  - exists st. split; [reflexivity|]. replace (first + 0)%nat with first by lia. exact Hfill.
  - simpl forLoop.
    destruct (descriptorBody_step shape A first st Hn HA ltac:(lia) Hfill) as (st1 & Hst1 & Hf1).
    rewrite Hst1; bind_ok.
    destruct (IH (Datatypes.S first) st1 ltac:(lia) Hf1) as (st2 & Hst2 & Hf2).
    exists st2. split; [exact Hst2|].
    replace (first + Datatypes.S c)%nat with (Datatypes.S first + c)%nat by lia. exact Hf2.
Qed.

Lemma filled_is_reverse (f : nat -> Z) (A : nat) (a : IntArray) :
  length a = A ->
  (forall j, (j < A)%nat -> a !! (A - 1 - j)%nat = Some (Some (f j))) ->
  a = Some <$> reverse (f <$> seq 0 A).
Proof.
  intros Hlen Hcells. apply list_eq. intros i.
  destruct (decide (i < A)%nat) as [Hi|Hi].
  - specialize (Hcells (A - 1 - i)%nat ltac:(lia)).
    replace (A - 1 - (A - 1 - i))%nat with i in Hcells by lia.
    rewrite Hcells, list_lookup_fmap.
    rewrite reverse_lookup by (rewrite length_fmap, length_seq; exact Hi).
    rewrite length_fmap, length_seq, list_lookup_fmap.
    replace (A - Datatypes.S i)%nat with (A - 1 - i)%nat by lia.
    rewrite lookup_seq_lt by lia. reflexivity.
  - rewrite !lookup_ge_None_2; [reflexivity| |lia].
    rewrite length_fmap, length_reverse, length_fmap, length_seq. lia.
Qed.

(** The closed form of the result for a shape of at least one dimension. *)
Lemma computeDescriptor_reverse (shape : Shape) :
  (1 <= dimension shape)%nat ->
  computeDescriptor shape =
    Ok (atLeastDimsOf shape,
        reverse (extentRec shape <$> seq 0 (atLeastDimsOf shape)),
        reverse (strideRec shape <$> seq 0 (atLeastDimsOf shape))).
Proof.
  intros Hn. unfold computeDescriptor. fold (atLeastDimsOf shape).
  set (A := atLeastDimsOf shape).
  assert (HA : (dimension shape <= A)%nat).
  { unfold A, atLeastDimsOf. destruct (decide (dimension shape < 4)%nat); lia. }
  destruct (descriptorLoop_fills shape A Hn HA A 0%nat
              (newIntArray A, newIntArray A) ltac:(lia))
    as ([dimA strideA] & Hrun & Hl1 & Hl2 & Hfill).
  { repeat split; simpl; unfold newIntArray; rewrite ?length_replicate; try reflexivity.
    all: lia. }
  rewrite Hrun; bind_ok. simpl in Hl1, Hl2, Hfill.
  rewrite (filled_is_reverse (extentRec shape) A dimA Hl1)
    by (intros j Hj; apply Hfill; lia).
  rewrite (filled_is_reverse (strideRec shape) A strideA Hl2)
    by (intros j Hj; apply Hfill; lia).
  rewrite !readAll_fmap_Some. bind_ok. bind_ok. reflexivity.
Qed.

Lemma atLeastDimsOf_max (shape : Shape) :
  atLeastDimsOf shape = (dimension shape `max` 4)%nat.
Proof. unfold atLeastDimsOf. destruct (decide (dimension shape < 4)%nat); lia. Qed.

Lemma productOf_snoc (l : list Z) (x : Z) : productOf (l ++ [x]) = productOf l * x.
Proof.
  unfold productOf. induction l as [|y l IH]; simpl; [lia|].
  rewrite IH. lia.
Qed.

Lemma productOf_nonneg (l : list Z) : Forall (fun d => 0 <= d) l -> 0 <= productOf l.
Proof.
  unfold productOf. induction 1 as [|d l Hd _ IH]; simpl; [lia|].
  apply Z.mul_nonneg_nonneg; assumption.
Qed.

Lemma extentRec_stored (shape : Shape) (i : nat) :
  extentRec shape i = storedExtent shape i.
Proof.
  unfold extentRec, storedExtent, claimedExtent.
  destruct (decide (i < dimension shape)%nat); reflexivity.
Qed.

Lemma strideRec_stored (shape : Shape) (i : nat) :
  (1 <= dimension shape)%nat -> strideRec shape i = storedStride shape i.
Proof.
  intros Hn. unfold storedStride, claimedStride.
  induction i as [|j IH].
  - reflexivity.
  - simpl strideRec. destruct (decide (Datatypes.S j < dimension shape)%nat) as [Hj|Hj].
    + rewrite IH, int_of_mul_wrapped.
      replace (j `min` (dimension shape - 1))%nat with j by lia.
      replace (Datatypes.S j `min` (dimension shape - 1))%nat with (Datatypes.S j) by lia.
      assert (Hlt : (j < length shape)%nat) by (unfold dimension in Hj; lia).
      destruct (lookup_lt_is_Some_2 shape j Hlt) as [d Hd].
      rewrite (take_S_r shape j d Hd), productOf_snoc.
      rewrite (nth_lookup_Some shape j 0 d Hd).
      f_equal. lia.
    + rewrite IH.
      replace (Datatypes.S j `min` (dimension shape - 1))%nat
        with (j `min` (dimension shape - 1))%nat by lia.
      reflexivity.
Qed.

(** The descriptor of a shape of at least one dimension, cell by cell. *)
Lemma computeDescriptor_stored (shape : Shape) :
  (1 <= dimension shape)%nat -> descriptorHolds storedExtent storedStride shape.
Proof.
  intros Hn. unfold descriptorHolds.
  rewrite (computeDescriptor_reverse shape Hn), atLeastDimsOf_max.
  set (A := (dimension shape `max` 4)%nat).
  eexists _, _. split; [reflexivity|].
  rewrite !length_reverse, !length_fmap, !length_seq.
  split; [reflexivity|]. split; [reflexivity|].
  intros i Hi.
  rewrite !reverse_lookup by (rewrite length_fmap, length_seq; lia).
  rewrite !length_fmap, !length_seq, !list_lookup_fmap.
  replace (A - Datatypes.S (A - 1 - i))%nat with i by lia.
  rewrite lookup_seq_lt by lia. simpl.
  rewrite extentRec_stored, (strideRec_stored shape i Hn). split; reflexivity.
Qed.

Lemma stored_is_claimed (shape : Shape) (i : nat) :
  fitsInt shape ->
  storedExtent shape i = claimedExtent shape i /\
  storedStride shape i = claimedStride shape i.
Proof.
  intros [Hext Hprod]. unfold storedExtent, storedStride. split.
  - apply int_of_small. unfold claimedExtent.
    destruct (decide (i < dimension shape)%nat) as [Hi|Hi]; [|lia].
    destruct (lookup_lt_is_Some_2 shape i Hi) as [d Hd].
    rewrite (nth_lookup_Some shape i 0 d Hd).
    rewrite Forall_lookup in Hext. specialize (Hext i d Hd). simpl in Hext. lia.
  - apply int_of_small. specialize (Hprod i).
    assert (0 <= claimedStride shape i); [|lia].
    unfold claimedStride. apply productOf_nonneg.
    apply Forall_take. eapply Forall_impl; [exact Hext|]. simpl. intros; lia.
Qed.

(** C4 (as amended).  For every shape of [n >= 1] dimensions the descriptor
    computation yields [max(n,4)] dimensions; the extents and the strides are
    stored in the reversed order, the cell [max(n,4) - 1 - i] belonging to the
    logical dimension [i]; a padded slot has extent 1 and the stride of the
    logical dimension [n - 1]; each value is stored as a 32-bit [int], so
    that the stride of dimension [i] is the product [d0 * ... * d(i-1)]
    reduced to an [int], and it is the product itself, and the extent is the
    extent itself, whenever all extents and products are below [2^31]. *)
Theorem computeDescriptor_padded_reversed (shape : Shape) :
  (1 <= dimension shape)%nat ->
  descriptorHolds storedExtent storedStride shape /\
  (fitsInt shape -> descriptorHolds claimedExtent claimedStride shape).
Proof.
  intros Hn. pose proof (computeDescriptor_stored shape Hn) as Hst.
  split; [exact Hst|].
  intros Hfit. destruct Hst as (dims & strides & Hrun & Hld & Hls & Hcells).
  exists dims, strides. repeat (split; [assumption|]).
  intros i Hi. destruct (Hcells i Hi) as [Hd Hs].
  destruct (stored_is_claimed shape i Hfit) as [<- <-]. split; assumption.
Qed.

Lemma fitsInt_2_3 : fitsInt [2; 3].
Proof.
  split.
  - repeat constructor; lia.
  - intros i. unfold claimedStride. destruct i as [|[|i]]; vm_compute; reflexivity.
Defined.

Lemma computeDescriptor_padded_reversed_witness :
  (1 <= dimension [2%Z; 3%Z])%nat /\
  fitsInt [2; 3] /\
  descriptorHolds storedExtent storedStride [2; 3] /\
  descriptorHolds claimedExtent claimedStride [2; 3].
Proof.
  assert (Hn : (1 <= dimension [2%Z; 3%Z])%nat) by (simpl; lia).
  destruct (computeDescriptor_padded_reversed [2; 3] Hn) as [Hstored Hclaimed].
  split; [exact Hn|]. split; [exact fitsInt_2_3|].
  split; [exact Hstored|exact (Hclaimed fitsInt_2_3)].
Defined.

(** C4 (as stated) fails where a product of extents is no [int] value: for
    the shape [65536 x 65536 x 2] the stride of the logical dimension 2 is
    [2^32], and the cell holds 0. *)
Lemma computeDescriptor_stride_wraps :
  validShape [65536; 65536; 2] /\
  (1 <= dimension [65536%Z; 65536%Z; 2%Z])%nat /\
  claimedStride [65536; 65536; 2] 2 = 4294967296 /\
  computeDescriptor [65536; 65536; 2]
    = Ok (4%nat, [1; 2; 65536; 65536], [0; 0; 65536; 1]) /\
  ~ descriptorHolds claimedExtent claimedStride [65536; 65536; 2].
Proof.
  split; [repeat constructor; lia|].
  split; [simpl; lia|]. split; [reflexivity|]. split; [reflexivity|].
  intros (dims & strides & Hrun & _ & _ & Hcells).
  change (computeDescriptor [65536; 65536; 2])
    with (Ok (A := nat * list Z * list Z) (4%nat, [1; 2; 65536; 65536], [0; 0; 65536; 1])) in Hrun.
  injection Hrun as <- <-.
  destruct (Hcells 2%nat ltac:(simpl; lia)) as [_ Hs].
  vm_compute in Hs. discriminate Hs.
Qed.

Lemma computeDescriptor_empty : computeDescriptor [] = Undefined (OutOfBounds 4 4).
Proof. reflexivity. Qed.

Lemma computeDescriptor_defined (shape : Shape) :
  isOk (computeDescriptor shape) <-> (1 <= dimension shape)%nat.
Proof.
  split.
  - intros [d Hd]. destruct shape as [|e shape]; [discriminate Hd|simpl; lia].
  - intros Hn. rewrite (computeDescriptor_reverse shape Hn). eexists. reflexivity.
Qed.

(** C10.  For a GPU tensor whose shape has no dimension the descriptor
    computation reads [strideA[atLeastDims]], index 4 of an array of 4 cells,
    in its first iteration (the first padded slot), and the call of
    [updateGPUTensorDescriptor] is undefined; the computation is defined
    exactly for the shapes of at least one dimension. *)
Theorem updateGPUTensorDescriptor_empty_shape (kind : ElementKind)
    (name : string) (data : Blob) (desc : Descriptor) :
  dimension [] = 0%nat /\
  descriptorBody [] 0 4 0 (newIntArray 4, newIntArray 4) = Undefined (OutOfBounds 4 4) /\
  computeDescriptor [] = Undefined (OutOfBounds 4 4) /\
  updateGPUTensorDescriptor GPU_CUDA kind (mkTensor [] name data desc)
    = Undefined (OutOfBounds 4 4) /\
  (forall shape : Shape,
      isOk (computeDescriptor shape) <-> (1 <= dimension shape)%nat).
Proof.
  split; [reflexivity|]. split; [reflexivity|]. split; [reflexivity|].
  split; [reflexivity|]. exact computeDescriptor_defined.
Qed.

(** ** Tensor operations *)

(** [updateGPUTensorDescriptor] returns for a CPU tensor and for a shape of
    at least one dimension; it changes the descriptor only, and the
    descriptor of a GPU tensor then describes the shape. *)
Lemma updateGPUTensorDescriptor_defined (dev : DeviceType) (kind : ElementKind) (t : Tensor) :
  dev = CPU_NAIVE \/ (1 <= dimension (m_shape t))%nat ->
  exists t',
    updateGPUTensorDescriptor dev kind t = Ok t' /\
    m_shape t' = m_shape t /\ m_name t' = m_name t /\ m_data t' = m_data t /\
    (dev = GPU_CUDA -> describesShape kind t') /\
    (dev = CPU_NAIVE -> t' = t).
Proof.
  intros Hdef. destruct dev.
  - exists t. split; [reflexivity|]. split; [reflexivity|]. split; [reflexivity|].
    split; [reflexivity|]. split; [discriminate|reflexivity].
  - destruct Hdef as [Hdev|Hn]; [discriminate|].
    destruct (proj2 (computeDescriptor_defined (m_shape t)) Hn) as [[[n dims] strides] Hd].
    exists (mkTensor (m_shape t) (m_name t) (m_data t) (DescSet (dataTypeOf kind) n dims strides)).
    split; [unfold updateGPUTensorDescriptor; rewrite Hd; reflexivity|].
    split; [reflexivity|]. split; [reflexivity|]. split; [reflexivity|].
    split; [|discriminate].
    intros _. unfold describesShape. simpl. rewrite Hd. reflexivity.
Qed.

(** For a GPU tensor whose shape has no dimension it is undefined. *)
Lemma updateGPUTensorDescriptor_dimensionless (kind : ElementKind) (t : Tensor) :
  dimension (m_shape t) = 0%nat ->
  updateGPUTensorDescriptor GPU_CUDA kind t = Undefined (OutOfBounds 4 4).
Proof.
  intros Hn. unfold updateGPUTensorDescriptor.
  destruct (m_shape t) as [|d s]; [reflexivity|discriminate Hn].
Qed.

Lemma reshape_same_size (dev : DeviceType) (kind : ElementKind) (newShape : Shape) (t : Tensor) :
  shapeSize newShape = shapeSize (m_shape t) ->
  reshape dev kind newShape t =
    (t' ← updateGPUTensorDescriptor dev kind
            (mkTensor newShape (m_name t) (m_data t) (m_gpuTensorDescriptor t));
     Ok (true, t')).
Proof. intros Heq. unfold reshape. rewrite decide_True by exact Heq. reflexivity. Qed.

Lemma reshape_other_size (dev : DeviceType) (kind : ElementKind) (newShape : Shape) (t : Tensor) :
  shapeSize newShape <> shapeSize (m_shape t) ->
  reshape dev kind newShape t = Ok (false, t).
Proof. intros Hne. unfold reshape. rewrite decide_False by exact Hne. reflexivity. Qed.

(** An accepted reshape, where the descriptor computation is defined. *)
Lemma reshape_accepted (dev : DeviceType) (kind : ElementKind) (newShape : Shape) (t : Tensor) :
  shapeSize newShape = shapeSize (m_shape t) ->
  dev = CPU_NAIVE \/ (1 <= dimension newShape)%nat ->
  exists t',
    reshape dev kind newShape t = Ok (true, t') /\
    updateGPUTensorDescriptor dev kind
      (mkTensor newShape (m_name t) (m_data t) (m_gpuTensorDescriptor t)) = Ok t' /\
    m_shape t' = newShape /\ m_name t' = m_name t /\ m_data t' = m_data t /\
    (dev = GPU_CUDA -> describesShape kind t').
Proof.
  intros Heq Hdef.
  destruct (updateGPUTensorDescriptor_defined dev kind
              (mkTensor newShape (m_name t) (m_data t) (m_gpuTensorDescriptor t)) Hdef)
    as (t' & Hu & Hs & Hn & Hd & Hdesc & _).
  exists t'. rewrite (reshape_same_size dev kind newShape t Heq), Hu.
  split; [reflexivity|]. split; [reflexivity|]. auto.
Qed.


Section TensorProperties.

Context {DataType : Type}.
Variable DeviceUsed : DeviceType.
Variable elementKind : ElementKind.
Variable sizeofDataType : Z.
Variable mallocOk : gmap nat (Block DataType) -> Z -> bool.
Variable garbage : nat -> DataType.

Local Abbreviation Heap := (gmap nat (Block DataType)).
Local Abbreviation blobAlloc' := (blobAlloc DeviceUsed sizeofDataType mallocOk garbage).
Local Abbreviation init' := (init DeviceUsed elementKind sizeofDataType mallocOk garbage).
Local Abbreviation initList' := (initList DeviceUsed elementKind sizeofDataType mallocOk garbage).

Lemma length_freshData (n : nat) : length (freshData garbage n) = n.
Proof. unfold freshData. rewrite length_fmap, length_seq. reflexivity. Qed.

(** A successful allocation hands out a block of [n] bytes with one owner. *)
Lemma blobAlloc_true (h h' : Heap) (b b' : Blob) (n : Z) :
  blobAlloc' h b n = (true, h', b') ->
  0 < n /\
  exists id blk,
    b' = Some id /\ h' !! id = Some blk /\
    refCount blk = 1%nat /\ sizeInByte blk = n /\
    hostData blk = freshData garbage (Z.to_nat (n / sizeofDataType)).
Proof.
  unfold blobAlloc. destruct (blobClear h b) as [h1 b1].
  destruct (decide (n <= 0)) as [Hn|Hn]; [discriminate|].
  destruct (mallocOk h1 n); [|discriminate].
  intros Heq. injection Heq as <- <-. split; [lia|].
  eexists _, _. split; [reflexivity|].
  rewrite lookup_insert_eq. split; [reflexivity|]. repeat split.
Qed.

Lemma blobAlloc_false (h h' : Heap) (b b' : Blob) (n : Z) :
  blobAlloc' h b n = (false, h', b') -> b' = None.
Proof.
  unfold blobAlloc. destruct (blobClear h b) as [h1 b1].
  destruct (decide (n <= 0)) as [Hn|Hn]; [congruence|].
  destruct (mallocOk h1 n); congruence.
Qed.

Lemma init_unfold (t : Tensor) (h : Heap) :
  init' t h =
    (let r := if decide (uint_of (shapeSize (m_shape t)) = 0) then (false, h, m_data t)
              else blobAlloc' h (m_data t)
                     (uint_of (shapeSize (m_shape t)) * sizeofDataType) in
     t' ← updateGPUTensorDescriptor DeviceUsed elementKind
            (mkTensor (m_shape t) (m_name t) r.2 (m_gpuTensorDescriptor t));
     Ok (r.1.1, t', r.1.2)).
Proof.
  unfold init.
  destruct (decide (uint_of (shapeSize (m_shape t)) = 0)) as [Hz|Hz].
  - destruct DeviceUsed; reflexivity.
  - destruct (blobAlloc' h (m_data t) (uint_of (shapeSize (m_shape t)) * sizeofDataType))
      as [[res h'] d].
    destruct DeviceUsed; reflexivity.
Qed.

(** A shape whose size is not 0 in 32 bits has a dimension. *)
Lemma size_dimension (s : Shape) : uint_of (shapeSize s) <> 0 -> (1 <= dimension s)%nat.
Proof.
  destruct s as [|d s]; [intros Hz; exfalso; apply Hz; reflexivity|simpl; lia].
Qed.

(** [init()] where the descriptor computation is defined: the result is that
    of the allocation (false when the size is 0), and the tensor keeps its
    shape and name. *)
Lemma init_result (t : Tensor) (h h1 : Heap) (res : bool) (d : Blob) :
  (if decide (uint_of (shapeSize (m_shape t)) = 0) then (false, h, m_data t)
   else blobAlloc' h (m_data t) (uint_of (shapeSize (m_shape t)) * sizeofDataType))
  = (res, h1, d) ->
  DeviceUsed = CPU_NAIVE \/ (1 <= dimension (m_shape t))%nat ->
  exists t',
    init' t h = Ok (res, t', h1) /\
    m_shape t' = m_shape t /\ m_name t' = m_name t /\ m_data t' = d /\
    (DeviceUsed = GPU_CUDA -> describesShape elementKind t').
Proof.
  intros Hr Hdef. rewrite init_unfold, Hr. cbv zeta. cbn [fst snd].
  destruct (updateGPUTensorDescriptor_defined DeviceUsed elementKind
              (mkTensor (m_shape t) (m_name t) d (m_gpuTensorDescriptor t)) Hdef)
    as (t' & Hu & Hs & Hn & Hd & Hdesc & _).
  exists t'. rewrite Hu. split; [reflexivity|]. auto.
Qed.

Lemma init_dimensionless (t : Tensor) (h : Heap) :
  DeviceUsed = GPU_CUDA -> dimension (m_shape t) = 0%nat ->
  init' t h = Undefined (OutOfBounds 4 4).
Proof.
  intros Hdev Hn. rewrite init_unfold. cbv zeta. rewrite Hdev.
  rewrite (updateGPUTensorDescriptor_dimensionless elementKind
             (mkTensor (m_shape t) (m_name t) _ (m_gpuTensorDescriptor t)) Hn).
  reflexivity.
Qed.


Lemma copyToHost_ok (vals : list DataType) (t : Tensor) (h : Heap) (id : nat)
    (blk : Block DataType) :
  m_data t = Some id -> h !! id = Some blk ->
  (length vals <= length (hostData blk))%nat ->
  copyToHost vals t h =
    Ok (<[id := mkBlock (refCount blk) (sizeInByte blk)
                  (vals ++ drop (length vals) (hostData blk)) (deviceData blk)]> h).
Proof.
  intros Hd Hb Hlen. unfold copyToHost, dataHandle. rewrite Hd, Hb. bind_ok.
  rewrite decide_True by exact Hlen. reflexivity.
Qed.

Lemma readAt_lookup (t : Tensor) (h : Heap) (id : nat) (blk : Block DataType)
    (i : nat) (v : DataType) :
  m_data t = Some id -> h !! id = Some blk -> hostData blk !! i = Some v ->
  readAt t h i = Ok v.
Proof.
  intros Hd Hb Hi. unfold readAt, dataHandle. rewrite Hd, Hb. bind_ok.
  rewrite Hi. reflexivity.
Qed.

(** [init(values)] returns what [init()] returns when this is false. *)
Lemma initList_init_false (vals : list DataType) (t t1 : Tensor) (h h1 : Heap) :
  init' t h = Ok (false, t1, h1) -> initList' vals t h = Ok (false, t1, h1).
Proof. intros Hi. unfold initList. rewrite Hi. reflexivity. Qed.

(** C7 (as amended).  With [size] the [unsigned int] that the code keeps of
    [shape.size()]: when [size] is positive, the allocation succeeds and
    [values] has at least [size] elements, [init(values)] returns true, the
    storage holds exactly the first [size] values, and element [i] reads
    back as [values[i]] for every [i] below [size].  When [size] is 0, and
    when the allocation fails, [init(values)] returns false and stores
    nothing, whatever the values are (for a GPU tensor of size 0, when its
    shape has a dimension; without a dimension the call is undefined). *)
Theorem initList_reads_back (vals : list DataType) (t : Tensor) (h : Heap) :
  let size := uint_of (shapeSize (m_shape t)) in
  (0 < sizeofDataType ->
   0 < size ->
   size <= Z.of_nat (length vals) ->
   (blobAlloc' h (m_data t) (size * sizeofDataType)).1.1 = true ->
   exists t' h' id blk,
     initList' vals t h = Ok (true, t', h') /\
     m_shape t' = m_shape t /\
     m_data t' = Some id /\ h' !! id = Some blk /\
     hostData blk = take (Z.to_nat size) vals /\
     forall i v, Z.of_nat i < size -> vals !! i = Some v ->
                 readAt t' h' i = Ok v) /\
  (size = 0 ->
   DeviceUsed = CPU_NAIVE \/ (1 <= dimension (m_shape t))%nat ->
   exists t',
     initList' vals t h = Ok (false, t', h) /\
     m_shape t' = m_shape t /\ m_data t' = m_data t) /\
  (size <> 0 ->
   (blobAlloc' h (m_data t) (size * sizeofDataType)).1.1 = false ->
   exists t' h',
     initList' vals t h = Ok (false, t', h') /\
     m_shape t' = m_shape t /\ m_data t' = None) /\
  (DeviceUsed = GPU_CUDA -> dimension (m_shape t) = 0%nat ->
   initList' vals t h = Undefined (OutOfBounds 4 4)).
Proof.
  intros size. split; [|split; [|split]].
  - intros Hsz Hpos Hlen Hres.
    assert (Hdim : (1 <= dimension (m_shape t))%nat) by (apply size_dimension; fold size; lia).
    destruct (blobAlloc' h (m_data t) (size * sizeofDataType)) as [[res h1] d] eqn:Halloc.
    simpl in Hres. subst res.
    assert (Hr : (if decide (uint_of (shapeSize (m_shape t)) = 0) then (false, h, m_data t)
                  else blobAlloc' h (m_data t)
                         (uint_of (shapeSize (m_shape t)) * sizeofDataType))
                 = (true, h1, d)).
    { fold size. rewrite decide_False by lia. exact Halloc. }
    destruct (init_result t h h1 true d Hr (or_intror Hdim))
      as (t1 & Hi & Hs1 & _ & Hd1 & _).
    destruct (blobAlloc_true _ _ _ _ _ Halloc) as (_ & id & blk & -> & Hblk & _ & _ & Hhost).
    rewrite Z.div_mul in Hhost by lia.
    unfold initList. rewrite Hi. bind_ok. cbn [negb].
    rewrite Hs1. fold size.
    set (k := if decide (Z.of_nat (length vals) > size) then Z.to_nat size else length vals).
    assert (Hk : k = Z.to_nat size).
    { unfold k. destruct (decide (Z.of_nat (length vals) > size)); lia. }
    rewrite Hk.
    assert (Htake : length (take (Z.to_nat size) vals) = Z.to_nat size)
      by (rewrite length_take; lia).
    assert (Hfresh : length (hostData blk) = Z.to_nat size)
      by (rewrite Hhost; apply length_freshData).
    rewrite (copyToHost_ok _ t1 h1 id blk Hd1 Hblk) by lia. bind_ok.
    rewrite Htake, drop_ge, app_nil_r by lia.
    set (blk2 := mkBlock (refCount blk) (sizeInByte blk) (take (Z.to_nat size) vals)
                   (deviceData blk)).
    assert (Hread : forall (t' : Tensor) (h' : Heap) (blk' : Block DataType),
               m_data t' = Some id -> h' !! id = Some blk' ->
               hostData blk' = take (Z.to_nat size) vals ->
               forall i v, Z.of_nat i < size -> vals !! i = Some v -> readAt t' h' i = Ok v).
    { intros t' h' blk' Hd' Hb' Hh' i v Hi' Hv.
      apply (readAt_lookup t' h' id blk' i v Hd' Hb').
      rewrite Hh', lookup_take_lt by lia. exact Hv. }
    destruct DeviceUsed eqn:Hdev.
    + exists t1, (<[id := blk2]> h1), id, blk2.
      split; [reflexivity|]. split; [exact Hs1|]. split; [exact Hd1|].
      rewrite lookup_insert_eq. split; [reflexivity|]. split; [reflexivity|].
      apply (Hread t1 _ blk2 Hd1); [apply lookup_insert_eq|reflexivity].
    + set (blk3 := mkBlock (refCount blk2) (sizeInByte blk2) (hostData blk2) (hostData blk2)).
      assert (Hb3 : blobCopyFromHostToDevice (<[id := blk2]> h1) (m_data t1) !! id
                    = Some blk3).
      { rewrite Hd1. unfold blobCopyFromHostToDevice.
        rewrite lookup_alter_eq, lookup_insert_eq. reflexivity. }
      destruct (updateGPUTensorDescriptor_defined GPU_CUDA elementKind t1)
        as (t2 & Hu & Hs2 & _ & Hd2 & _); [right; rewrite Hs1; exact Hdim|].
      cbv zeta. rewrite Hu. bind_ok.
      exists t2, (blobCopyFromHostToDevice (<[id := blk2]> h1) (m_data t1)), id, blk3.
      split; [reflexivity|]. split; [congruence|]. split; [congruence|].
      split; [exact Hb3|]. split; [reflexivity|].
      apply (Hread _ _ blk3); [congruence|exact Hb3|reflexivity].
  - intros Hz Hdef.
    assert (Hr : (if decide (uint_of (shapeSize (m_shape t)) = 0) then (false, h, m_data t)
                  else blobAlloc' h (m_data t)
                         (uint_of (shapeSize (m_shape t)) * sizeofDataType))
                 = (false, h, m_data t)).
    { fold size. rewrite decide_True by exact Hz. reflexivity. }
    destruct (init_result t h h false (m_data t) Hr Hdef) as (t1 & Hi & Hs1 & _ & Hd1 & _).
    exists t1. split; [exact (initList_init_false vals t t1 h h Hi)|]. auto.
  - intros Hnz Hres.
    destruct (blobAlloc' h (m_data t) (size * sizeofDataType)) as [[res h1] d] eqn:Halloc.
    simpl in Hres. subst res.
    assert (Hr : (if decide (uint_of (shapeSize (m_shape t)) = 0) then (false, h, m_data t)
                  else blobAlloc' h (m_data t)
                         (uint_of (shapeSize (m_shape t)) * sizeofDataType))
                 = (false, h1, d)).
    { fold size. rewrite decide_False by exact Hnz. exact Halloc. }
    destruct (init_result t h h1 false d Hr (or_intror (size_dimension _ Hnz)))
      as (t1 & Hi & Hs1 & _ & Hd1 & _).
    exists t1, h1. split; [exact (initList_init_false vals t t1 h h1 Hi)|].
    split; [exact Hs1|]. rewrite Hd1. exact (blobAlloc_false _ _ _ _ _ Halloc).
  - intros Hdev Hn. unfold initList. rewrite (init_dimensionless t h Hdev Hn). reflexivity.
Qed.

(** C9.  After [B] is copy-constructed from [A], the two tensors have the
    same storage: an element written through [A] is read through [B]; and
    after [A.clear()] the storage that [B] refers to is still there, with the
    same content. *)
Theorem copyConstruct_shares_storage (A : Tensor) (h : Heap) (id : nat)
    (blk : Block DataType) (i : nat) (v : DataType) :
  m_data A = Some id -> h !! id = Some blk ->
  (1 <= refCount blk)%nat -> (i < length (hostData blk))%nat ->
  let B := (copyConstruct A h).1 in
  let h1 := (copyConstruct A h).2 in
  m_data B = m_data A /\
  exists h2,
    writeAt A h1 i v = Ok h2 /\
    readAt B h2 i = Ok v /\
    m_data (clear A h2).1 = None /\
    readAt B (clear A h2).2 i = Ok v /\
    forall j, readAt B (clear A h2).2 j = readAt B h2 j.
Proof.
  intros Hd Hb Hrc Hi. unfold copyConstruct, blobCopy. rewrite Hd. simpl.
  split; [reflexivity|].
  set (h1 := alter _ id h).
  assert (Hb1 : h1 !! id = Some (mkBlock (Datatypes.S (refCount blk)) (sizeInByte blk)
                                   (hostData blk) (deviceData blk))).
  { unfold h1. rewrite lookup_alter_eq, Hb. reflexivity. }
  set (blk2 := mkBlock (Datatypes.S (refCount blk)) (sizeInByte blk)
                 (<[i := v]> (hostData blk)) (deviceData blk)).
  exists (<[id := blk2]> h1).
  split.
  { unfold writeAt, dataHandle. rewrite Hd, Hb1. bind_ok. simpl.
    rewrite decide_True by exact Hi. reflexivity. }
  assert (Hread2 : forall j, readAt (mkTensor (m_shape A) (m_name A) (Some id) DescCreated)
                               (<[id := blk2]> h1) j
                             = match <[i := v]> (hostData blk) !! j with
                               | Some x => Ok x
                               | None => Undefined (OutOfBounds (Z.of_nat j)
                                                     (length (<[i := v]> (hostData blk))))
                               end).
  { intros j. unfold readAt, dataHandle. simpl. rewrite lookup_insert_eq. bind_ok.
    reflexivity. }
  assert (Hclear : clear A (<[id := blk2]> h1)
                   = (mkTensor (m_shape A) (m_name A) None (m_gpuTensorDescriptor A),
                      <[id := mkBlock (refCount blk) (sizeInByte blk)
                                (<[i := v]> (hostData blk)) (deviceData blk)]>
                        (<[id := blk2]> h1))).
  { unfold clear, blobClear. rewrite Hd, lookup_insert_eq. simpl.
    rewrite decide_False by lia.
    replace (refCount blk - 0)%nat with (refCount blk) by lia. reflexivity. }
  assert (Hread3 : forall j, readAt (mkTensor (m_shape A) (m_name A) (Some id) DescCreated)
                               (clear A (<[id := blk2]> h1)).2 j
                             = readAt (mkTensor (m_shape A) (m_name A) (Some id) DescCreated)
                                 (<[id := blk2]> h1) j).
  { intros j. rewrite Hclear, Hread2. unfold readAt, dataHandle. simpl.
    rewrite lookup_insert_eq. bind_ok. reflexivity. }
  split.
  { rewrite Hread2, list_lookup_insert_eq by exact Hi. reflexivity. }
  split; [rewrite Hclear; reflexivity|].
  split; [|exact Hread3].
  rewrite Hread3, Hread2, list_lookup_insert_eq by exact Hi. reflexivity.
Qed.

(** The descriptor after the copy constructor: created, and not set. *)
Lemma copyConstruct_fields (t : Tensor) (h : Heap) :
  m_shape (copyConstruct t h).1 = m_shape t /\
  m_gpuTensorDescriptor (copyConstruct t h).1 = DescCreated.
Proof. unfold copyConstruct, blobCopy. destruct (m_data t); split; reflexivity. Qed.

Lemma DescCreated_describes_nothing (kind : ElementKind) (t : Tensor) :
  m_gpuTensorDescriptor t = DescCreated -> ~ describesShape kind t.
Proof.
  intros Hd. unfold describesShape. rewrite Hd.
  destruct (computeDescriptor (m_shape t)) as [[[n dims] strides]|f]; [discriminate|tauto].
Qed.

(** A GPU tensor after [reshape], after [operator=] and after [init()] has
    a descriptor of its shape, when that shape has a dimension. *)
Lemma reshape_describes (newShape : Shape) (t : Tensor) :
  (1 <= dimension newShape)%nat ->
  shapeSize newShape = shapeSize (m_shape t) ->
  exists t',
    reshape GPU_CUDA elementKind newShape t = Ok (true, t') /\
    m_shape t' = newShape /\
    describesShape elementKind t'.
Proof.
  intros Hn Heq.
  destruct (reshape_accepted GPU_CUDA elementKind newShape t Heq (or_intror Hn))
    as (t' & Hr & _ & Hs & _ & _ & Hdesc).
  exists t'. auto.
Qed.

Lemma assign_result (dev : DeviceType) (t t_in : Tensor) (h : Heap) :
  dev = CPU_NAIVE \/ (1 <= dimension (m_shape t_in))%nat ->
  exists t',
    assign dev elementKind t t_in h = Ok (t', (blobAssign h (m_data t) (m_data t_in)).1) /\
    m_shape t' = m_shape t_in /\ m_name t' = m_name t_in /\
    m_data t' = (blobAssign h (m_data t) (m_data t_in)).2 /\
    (dev = GPU_CUDA -> describesShape elementKind t').
Proof.
  intros Hdef. unfold assign.
  destruct (blobAssign h (m_data t) (m_data t_in)) as [h' d]. cbn [fst snd].
  destruct (updateGPUTensorDescriptor_defined dev elementKind
              (mkTensor (m_shape t_in) (m_name t_in) d (m_gpuTensorDescriptor t)) Hdef)
    as (t' & Hu & Hs & Hn & Hd & Hdesc & _).
  exists t'. rewrite Hu. split; [reflexivity|]. auto.
Qed.

Lemma assign_describes (t t_in : Tensor) (h : Heap) :
  (1 <= dimension (m_shape t_in))%nat ->
  exists t' h',
    assign GPU_CUDA elementKind t t_in h = Ok (t', h') /\
    m_shape t' = m_shape t_in /\
    describesShape elementKind t'.
Proof.
  intros Hn.
  destruct (assign_result GPU_CUDA t t_in h (or_intror Hn)) as (t' & Ha & Hs & _ & _ & Hdesc).
  exists t', (blobAssign h (m_data t) (m_data t_in)).1. auto.
Qed.

Lemma init_describes (t : Tensor) (h : Heap) :
  (1 <= dimension (m_shape t))%nat ->
  exists r t' h',
    init GPU_CUDA elementKind sizeofDataType mallocOk garbage t h = Ok (r, t', h') /\
    m_shape t' = m_shape t /\
    describesShape elementKind t'.
Proof.
  intros Hn.
  destruct (updateGPUTensorDescriptor_defined GPU_CUDA elementKind
              (mkTensor (m_shape t) (m_name t)
                 (if decide (uint_of (shapeSize (m_shape t)) = 0) then (false, h, m_data t)
                  else blobAlloc GPU_CUDA sizeofDataType mallocOk garbage h (m_data t)
                         (uint_of (shapeSize (m_shape t)) * sizeofDataType)).2
                 (m_gpuTensorDescriptor t)) (or_intror Hn))
    as (t' & Hu & Hs & _ & _ & Hdesc & _).
  unfold init.
  destruct (if decide (uint_of (shapeSize (m_shape t)) = 0) then (false, h, m_data t)
            else blobAlloc GPU_CUDA sizeofDataType mallocOk garbage h (m_data t)
                   (uint_of (shapeSize (m_shape t)) * sizeofDataType)) as [[res h'] d].
  cbn [snd] in Hu. rewrite Hu. exists res, t', h'. split; [reflexivity|]. auto.
Qed.

(** C5, the copy constructor.  The tensor [B] copy-constructed from a tensor
    [A] has the shape of [A] and a descriptor that was created and never
    set: it does not describe the shape, also when the descriptor of [A]
    does. *)
Theorem copyConstruct_descriptor_not_set (A : Tensor) (h : Heap) :
  m_shape (copyConstruct A h).1 = m_shape A /\
  m_gpuTensorDescriptor (copyConstruct A h).1 = DescCreated /\
  ~ describesShape elementKind (copyConstruct A h).1 /\
  ((1 <= dimension (m_shape A))%nat ->
   exists r A' h',
     init GPU_CUDA elementKind sizeofDataType mallocOk garbage A h = Ok (r, A', h') /\
     m_shape A' = m_shape A /\
     describesShape elementKind A' /\
     m_shape (copyConstruct A' h').1 = m_shape A /\
     m_gpuTensorDescriptor (copyConstruct A' h').1 = DescCreated /\
     ~ describesShape elementKind (copyConstruct A' h').1).
Proof.
  destruct (copyConstruct_fields A h) as [Hs Hd].
  split; [exact Hs|]. split; [exact Hd|].
  split; [apply DescCreated_describes_nothing; exact Hd|].
  intros Hn. destruct (init_describes A h Hn) as (r & A' & h' & Hi & Hs' & Hdesc).
  exists r, A', h'. split; [exact Hi|]. split; [exact Hs'|]. split; [exact Hdesc|].
  destruct (copyConstruct_fields A' h') as [Hs2 Hd2].
  split; [congruence|]. split; [exact Hd2|].
  apply DescCreated_describes_nothing. exact Hd2.
Qed.

End TensorProperties.

(** *** Concrete tensors *)





Lemma initList_reads_back_witness :
  (exists t' h' id blk,
     initList GPU_CUDA IsFloat 4 (fun _ _ => true) (fun _ => 0%Q)
       [1; 2; 3; 4; 5; 6; 7]%Q (construct [2; 3] "t") ∅ = Ok (true, t', h') /\
     m_shape t' = [2; 3] /\
     m_data t' = Some id /\ h' !! id = Some blk /\
     hostData blk = [1; 2; 3; 4; 5; 6]%Q /\
     forall i v, Z.of_nat i < 6 -> [1; 2; 3; 4; 5; 6; 7]%Q !! i = Some v ->
                 readAt t' h' i = Ok v) /\
  (exists t',
     initList GPU_CUDA IsFloat 4 (fun _ _ => true) (fun _ => 0%Q)
       [1%Q] (construct [0; 3] "t") ∅ = Ok (false, t', ∅) /\
     m_shape t' = [0; 3] /\ m_data t' = None) /\
  (exists t' h',
     initList GPU_CUDA IsFloat 4 (fun _ _ => false) (fun _ => 0%Q)
       [1; 2]%Q (construct [2] "t") ∅ = Ok (false, t', h') /\
     m_shape t' = [2] /\ m_data t' = None).
Proof.
  split; [|split].
  - destruct (initList_reads_back GPU_CUDA IsFloat 4 (fun _ _ => true) (fun _ => 0%Q)
                [1; 2; 3; 4; 5; 6; 7]%Q (construct [2; 3] "t") ∅) as (Hok & _).
    assert (H1 : 0 < 4) by lia.
    assert (H2 : 0 < uint_of (shapeSize (m_shape (construct [2; 3] "t")))) by reflexivity.
    assert (H3 : uint_of (shapeSize (m_shape (construct [2; 3] "t")))
                 <= Z.of_nat (length [1; 2; 3; 4; 5; 6; 7]%Q))
      by (vm_compute; discriminate).
    exact (Hok H1 H2 H3 eq_refl).
  - destruct (initList_reads_back GPU_CUDA IsFloat 4 (fun _ _ => true) (fun _ => 0%Q)
                [1%Q] (construct [0; 3] "t") ∅) as (_ & Hzero & _).
    exact (Hzero eq_refl (or_intror (le_S 1 1 (le_n 1)))).
  - destruct (initList_reads_back GPU_CUDA IsFloat 4 (fun _ _ => false) (fun _ => 0%Q)
                [1; 2]%Q (construct [2] "t") ∅) as (_ & _ & Hfail & _).
    assert (Hnz : uint_of (shapeSize (m_shape (construct [2] "t"))) <> 0) by discriminate.
    exact (Hfail Hnz eq_refl).
Defined.

(** C7 (as stated) fails for a tensor without elements and when the
    allocation fails: [init(values)] returns false though [values] is long
    enough. *)
Lemma initList_returns_false :
  shapeSize [0] <= Z.of_nat (length [1%Q]) /\
  initList CPU_NAIVE IsFloat 4 (fun _ _ => true) (fun _ => 0%Q)
    [1%Q] (construct [0] "t") ∅
    = Ok (false, construct [0] "t", ∅) /\
  shapeSize [2] <= Z.of_nat (length [1; 2]%Q) /\
  initList CPU_NAIVE IsFloat 4 (fun _ _ => false) (fun _ => 0%Q)
    [1; 2]%Q (construct [2] "t") ∅
    = Ok (false, construct [2] "t", ∅).
Proof.
  split; [vm_compute; discriminate|]. split; [reflexivity|].
  split; [vm_compute; discriminate|]. reflexivity.
Qed.

Lemma copyConstruct_shares_storage_witness :
  let A := mkTensor [3] "A" (Some 0%nat) DescCreated in
  let h : gmap nat (Block Q) := {[ 0%nat := mkBlock 1 12 [1; 2; 3]%Q [] ]} in
  let B := (copyConstruct A h).1 in
  let h1 := (copyConstruct A h).2 in
  m_data B = m_data A /\
  exists h2,
    writeAt A h1 1 (9 # 2)%Q = Ok h2 /\
    readAt B h2 1 = Ok (9 # 2)%Q /\
    m_data (clear A h2).1 = None /\
    readAt B (clear A h2).2 1 = Ok (9 # 2)%Q /\
    forall j, readAt B (clear A h2).2 j = readAt B h2 j.
Proof.
  exact (copyConstruct_shares_storage
           (mkTensor [3] "A" (Some 0%nat) DescCreated)
           {[ 0%nat := mkBlock 1 12 [1; 2; 3]%Q [] ]}
           0%nat (mkBlock 1 12 [1; 2; 3]%Q []) 1%nat (9 # 2)%Q
           eq_refl eq_refl (le_n 1) (le_n_S 1 2 (le_S 1 1 (le_n 1)))).
Defined.

(** Without a second owner, [clear()] releases the storage. *)
Lemma clear_releases_last_reference :
  let A := mkTensor [3] "A" (Some 0%nat) DescCreated in
  let h : gmap nat (Block Q) := {[ 0%nat := mkBlock 1 12 [1; 2; 3]%Q [] ]} in
  readAt A h 1 = Ok 2%Q /\
  (clear A h).2 = ∅ /\
  readAt A (clear A h).2 1 = Undefined NullHandle.
Proof. vm_compute. repeat split. Qed.

(** ** The cost kernel *)

Lemma lookupZ_lt {A : Type} (l : list A) (z : Z) (d : A) :
  0 <= z < Z.of_nat (length l) -> lookupZ l z = Ok (nth (Z.to_nat z) l d).
Proof.
  intros Hz. unfold lookupZ. rewrite decide_True by lia.
  destruct (lookup_lt_is_Some_2 l (Z.to_nat z) ltac:(lia)) as [a Ha].
  rewrite Ha. f_equal. symmetry. exact (nth_lookup_Some l (Z.to_nat z) d a Ha).
Qed.

Lemma lookupZ_ge {A : Type} (l : list A) (z : Z) :
  Z.of_nat (length l) <= z -> lookupZ l z = Undefined (OutOfBounds z (length l)).
Proof.
  intros Hz. unfold lookupZ. rewrite decide_True by lia.
  rewrite lookup_ge_None_2 by lia. reflexivity.
Qed.

Lemma elem_of_gridThreads (gridSize blockDim b t : Z) :
  (b, t) ∈ gridThreads gridSize blockDim <->
  (0 <= b < gridSize) /\ (0 <= t < blockDim).
Proof.
  unfold gridThreads. rewrite list_elem_of_bind. split.
  - intros (b' & Ht & Hb). apply list_elem_of_fmap in Ht as (t' & Heq & Ht').
    injection Heq as -> ->. apply elem_of_seqZ in Hb, Ht'. lia.
  - intros [Hb Ht]. exists b. split.
    + apply list_elem_of_fmap. exists t. split; [reflexivity|]. apply elem_of_seqZ. lia.
    + apply elem_of_seqZ. lia.
Qed.

Lemma gridSizeOf_small (labelSize batchSize : Z) :
  0 <= labelSize * batchSize < 2 ^ 31 ->
  gridSizeOf labelSize batchSize =
    if decide ((labelSize * batchSize) mod blockSize <> 0)
    then labelSize * batchSize / blockSize + 1
    else labelSize * batchSize / blockSize.
Proof.
  intros HN. unfold gridSizeOf. rewrite uint_of_small by lia.
  assert (Hq : 0 <= labelSize * batchSize / blockSize < 2 ^ 21).
  { unfold blockSize. split.
    - apply Z.div_pos; lia.
    - apply Z.div_lt_upper_bound; lia. }
  rewrite (int_of_small (labelSize * batchSize / blockSize)) by lia.
  destruct (decide ((labelSize * batchSize) mod blockSize <> 0)); [|reflexivity].
  apply int_of_small. lia.
Qed.

Section CostKernel.

Variables (input label : list R) (labelSize batchSize : Z).
Hypothesis labelSize_pos : 0 < labelSize.
Hypothesis batchSize_nonneg : 0 <= batchSize.
Hypothesis length_input : Z.of_nat (length input) = labelSize * batchSize.
Hypothesis length_label : Z.of_nat (length label) = labelSize * batchSize.

Local Set Default Proof Using "All".

Local Abbreviation thread := (crossEntropy input label labelSize batchSize blockSize).

(** The thread with the global index [id = blockIdx * blockDim + threadIdx]
    works on the flat position [id] and on the cost cell [id / labelSize]. *)
Lemma crossEntropy_position (b t : Z) (cost : list R) :
  0 <= b * blockSize + t < 2 ^ 31 ->
  thread b t cost =
    (l ← lookupZ label (b * blockSize + t);
     x ← lookupZ input (b * blockSize + t);
     c ← lookupZ cost ((b * blockSize + t) / labelSize);
     Ok (<[Z.to_nat ((b * blockSize + t) / labelSize) := (c + crossEntropyTerm l x)%R]> cost)).
Proof.
  intros Hid. set (id := b * blockSize + t) in *.
  unfold crossEntropy. fold id.
  rewrite decide_False by lia.
  rewrite (uint_of_small id) by lia. rewrite (int_of_small id) by lia.
  rewrite (uint_of_small id) by lia.
  assert (Hm : 0 <= id mod labelSize < labelSize) by (apply Z.mod_pos_bound; lia).
  assert (Hml : id mod labelSize <= id) by (apply Z.mod_le; lia).
  assert (Hq : 0 <= id / labelSize <= id).
  { split; [apply Z.div_pos; lia|].
    apply Z.div_le_upper_bound; [lia|]. nia. }
  rewrite (int_of_small (id mod labelSize)) by lia.
  rewrite (int_of_small (id / labelSize)) by lia.
  replace (id / labelSize * labelSize + id mod labelSize) with id
    by (rewrite (Z.div_mod id labelSize) at 1 by lia; lia).
  rewrite (uint_of_small id) by lia. reflexivity.
Qed.

(** A thread whose index is not below [labelSize * batchSize] reads [label]
    outside its cells. *)
Lemma crossEntropy_beyond (b t : Z) (cost : list R) :
  labelSize * batchSize <= b * blockSize + t < 2 ^ 31 ->
  thread b t cost = Undefined (OutOfBounds (b * blockSize + t) (length label)).
Proof.
  intros Hid. assert (HN0 : 0 <= labelSize * batchSize) by nia.
  rewrite crossEntropy_position by lia.
  rewrite (lookupZ_ge label) by lia. reflexivity.
Qed.

(** A thread whose index is below [labelSize * batchSize] adds its term to
    the cost cell of its batch. *)
Lemma crossEntropy_within (b t : Z) (cost : list R) :
  0 <= b * blockSize + t < labelSize * batchSize ->
  labelSize * batchSize < 2 ^ 31 ->
  Z.of_nat (length cost) = batchSize ->
  thread b t cost =
    Ok (<[Z.to_nat ((b * blockSize + t) / labelSize) :=
            (nth (Z.to_nat ((b * blockSize + t) / labelSize)) cost 0
             + crossEntropyTerm (nth (Z.to_nat (b * blockSize + t)) label 0)
                                (nth (Z.to_nat (b * blockSize + t)) input 0))%R]> cost).
Proof.
  intros Hid HN Hcost. rewrite crossEntropy_position by lia.
  rewrite (lookupZ_lt label _ 0%R) by lia. bind_ok.
  rewrite (lookupZ_lt input _ 0%R) by lia. bind_ok.
  assert (Hq : 0 <= (b * blockSize + t) / labelSize < batchSize).
  { split; [apply Z.div_pos; lia|]. apply Z.div_lt_upper_bound; lia. }
  rewrite (lookupZ_lt cost _ 0%R) by lia. bind_ok. reflexivity.
Qed.

(** A launch that holds a thread beyond the arrays is undefined, in whatever
    order its threads run. *)
Lemma runThreads_beyond (sched : list (Z * Z)) :
  labelSize * batchSize < 2 ^ 31 ->
  (forall b t, (b, t) ∈ sched -> 0 <= b * blockSize + t < 2 ^ 31) ->
  (exists b t, (b, t) ∈ sched /\ labelSize * batchSize <= b * blockSize + t) ->
  forall cost, Z.of_nat (length cost) = batchSize ->
  exists k, labelSize * batchSize <= k /\
            runThreads thread sched cost = Undefined (OutOfBounds k (length label)).
Proof.
  intros HN. induction sched as [|[b t] rest IH];
    intros Hrange (b' & t' & Hin & Hbeyond) cost Hcost.
  - apply elem_of_nil in Hin. contradiction.
  - pose proof (Hrange b t ltac:(left)) as Hbt.
    cbn [runThreads].
    destruct (decide (labelSize * batchSize <= b * blockSize + t)) as [Hge|Hlt].
    + exists (b * blockSize + t). split; [exact Hge|].
      rewrite crossEntropy_beyond by lia. reflexivity.
    + rewrite crossEntropy_within by lia. bind_ok.
      apply IH.
      * intros b0 t0 H0. apply Hrange. right. exact H0.
      * exists b', t'. split; [|exact Hbeyond].
        apply elem_of_cons in Hin as [Heq|Hin]; [|exact Hin].
        injection Heq as -> ->. lia.
      * rewrite length_insert. exact Hcost.
Qed.

(** When [labelSize * batchSize] is no multiple of the block size, the last
    block holds the thread of index [labelSize * batchSize], and the launch
    of [crossEntropyCUDAKernel] is undefined. *)
Lemma launch_with_partial_block (sched : list (Z * Z)) (cost : list R) :
  labelSize * batchSize + blockSize <= 2 ^ 31 ->
  (labelSize * batchSize) mod blockSize <> 0 ->
  Z.of_nat (length cost) = batchSize ->
  isSchedule (gridSizeOf labelSize batchSize) blockSize sched ->
  (labelSize * batchSize / blockSize, (labelSize * batchSize) mod blockSize) ∈ sched /\
  exists k, labelSize * batchSize <= k /\
    crossEntropyCUDAKernel sched input label cost labelSize batchSize
      = Undefined (OutOfBounds k (length label)).
Proof.
  intros HN Hrem Hcost Hsched. unfold blockSize in HN.
  assert (HN0 : 0 <= labelSize * batchSize) by nia.
  assert (Hgrid : gridSizeOf labelSize batchSize = labelSize * batchSize / blockSize + 1).
  { rewrite gridSizeOf_small by lia. rewrite decide_True by exact Hrem. reflexivity. }
  unfold isSchedule in Hsched. rewrite Hgrid in Hsched.
  assert (Hq : 0 <= labelSize * batchSize / blockSize) by (apply Z.div_pos; unfold blockSize; lia).
  assert (Hm : 0 <= (labelSize * batchSize) mod blockSize < blockSize)
    by (apply Z.mod_pos_bound; unfold blockSize; lia).
  assert (Hdm : labelSize * batchSize
                = blockSize * (labelSize * batchSize / blockSize)
                  + (labelSize * batchSize) mod blockSize)
    by (apply Z.div_mod; unfold blockSize; lia).
  assert (Hin : (labelSize * batchSize / blockSize,
                 (labelSize * batchSize) mod blockSize) ∈ sched).
  { rewrite Hsched. apply elem_of_gridThreads. lia. }
  split; [exact Hin|].
  unfold crossEntropyCUDAKernel, memsetZero.
  rewrite decide_True by lia. bind_ok.
  apply runThreads_beyond.
  - lia.
  - intros b t Hbt. rewrite Hsched in Hbt. apply elem_of_gridThreads in Hbt.
    unfold blockSize in *. nia.
  - eexists _, _. split; [exact Hin|]. lia.
  - rewrite length_app, length_replicate, length_drop. lia.
Qed.

(** *** Full blocks: the launch computes the sums *)

Lemma contribution_cons (id : Z) (ids : list Z) (c : Z) :
  contribution input label labelSize (id :: ids) c =
    if decide (id / labelSize = c)
    then (termAt input label id + contribution input label labelSize ids c)%R
    else contribution input label labelSize ids c.
Proof.
  unfold contribution. rewrite filter_cons.
  destruct (decide (id / labelSize = c)); reflexivity.
Qed.

Lemma contribution_Permutation (ids ids' : list Z) (c : Z) :
  Permutation ids ids' ->
  contribution input label labelSize ids c = contribution input label labelSize ids' c.
Proof.
  induction 1 as [|x l l' _ IH|x y l|l l' l'' _ IH1 _ IH2].
  - reflexivity.
  - rewrite !contribution_cons, IH. reflexivity.
  - rewrite !contribution_cons.
    destruct (decide (x / labelSize = c)), (decide (y / labelSize = c));
      try reflexivity. ring.
  - rewrite IH1. exact IH2.
Qed.

Lemma runThreads_within (sched : list (Z * Z)) :
  labelSize * batchSize < 2 ^ 31 ->
  (forall b t, (b, t) ∈ sched -> 0 <= b * blockSize + t < labelSize * batchSize) ->
  forall cost, Z.of_nat (length cost) = batchSize ->
  exists cost',
    runThreads thread sched cost = Ok cost' /\
    length cost' = length cost /\
    forall c, (c < length cost)%nat ->
      nth c cost' 0%R
      = (nth c cost 0 + contribution input label labelSize (threadId <$> sched) (Z.of_nat c))%R.
Proof.
  intros HN. induction sched as [|[b t] rest IH]; intros Hrange cost Hcost.
  - exists cost. split; [reflexivity|]. split; [reflexivity|].
    intros c _. unfold contribution, sumR. simpl. ring.
  - pose proof (Hrange b t ltac:(left)) as Hbt.
    cbn [runThreads]. rewrite crossEntropy_within by lia. bind_ok.
    set (id := b * blockSize + t) in *.
    assert (Hq : 0 <= id / labelSize < batchSize).
    { split; [apply Z.div_pos; lia|]. apply Z.div_lt_upper_bound; lia. }
    set (cost1 := <[Z.to_nat (id / labelSize) := _]> cost).
    destruct (IH ltac:(intros b0 t0 H0; apply Hrange; right; exact H0) cost1)
      as (cost' & Hrun & Hlen & Hcells).
    { unfold cost1. rewrite length_insert. exact Hcost. }
    exists cost'. split; [exact Hrun|].
    assert (Hl1 : length cost1 = length cost) by (unfold cost1; apply length_insert).
    split; [lia|].
    intros c Hc. rewrite (Hcells c) by lia.
    rewrite fmap_cons, contribution_cons.
    change (threadId (b, t)) with id. fold (termAt input label id).
    destruct (decide (id / labelSize = Z.of_nat c)) as [Heq|Hne].
    + assert (Hqc : Z.to_nat (id / labelSize) = c) by lia.
      unfold cost1. rewrite Hqc.
      rewrite (nth_lookup (<[c := _]> cost)), list_lookup_insert_eq by lia.
      simpl. unfold termAt. ring.
    + assert (Hqc : Z.to_nat (id / labelSize) <> c) by lia.
      unfold cost1. rewrite (nth_lookup (<[_ := _]> cost)), list_lookup_insert_ne by exact Hqc.
      rewrite <- nth_lookup. reflexivity.
Qed.

End CostKernel.

Lemma threadId_gridThreads (g : nat) :
  threadId <$> gridThreads (Z.of_nat g) blockSize = seqZ 0 (Z.of_nat g * blockSize).
Proof.
  induction g as [|g IH]; [reflexivity|].
  unfold gridThreads in *.
  rewrite seqZ_S, bind_app, fmap_app, IH.
  rewrite bind_cons. cbn [mbind list_bind]. rewrite app_nil_r, <- list_fmap_compose.
  replace (Z.of_nat (Datatypes.S g) * blockSize)
    with (Z.of_nat g * blockSize + blockSize) by lia.
  rewrite seqZ_app by (unfold blockSize; lia). f_equal.
  replace (0 + Z.of_nat g * blockSize) with (Z.of_nat g * blockSize + 0) by lia.
  rewrite <- (fmap_add_seqZ (Z.of_nat g * blockSize) 0 blockSize).
  apply list_fmap_ext. intros i t _. unfold threadId. simpl. lia.
Qed.

Lemma filter_all {A : Type} (P : A -> Prop) `{forall x, Decision (P x)} (l : list A) :
  Forall P l -> filter P l = l.
Proof.
  induction 1 as [|x l Hx _ IH]; [reflexivity|].
  rewrite filter_cons, decide_True by exact Hx. f_equal. exact IH.
Qed.

Lemma filter_none {A : Type} (P : A -> Prop) `{forall x, Decision (P x)} (l : list A) :
  Forall (fun x => ~ P x) l -> filter P l = [].
Proof.
  induction 1 as [|x l Hx _ IH]; [reflexivity|].
  rewrite filter_cons, decide_False by exact Hx. exact IH.
Qed.

(** The positions of batch [c] among the positions [0 .. labelSize * B - 1]. *)
Lemma filter_batch (labelSize : Z) (B : nat) (c : Z) :
  0 < labelSize -> 0 <= c ->
  filter (fun id => id / labelSize = c) (seqZ 0 (labelSize * Z.of_nat B))
  = if decide (c < Z.of_nat B) then seqZ (c * labelSize) labelSize else [].
Proof.
  intros HL Hc. induction B as [|B IH].
  - rewrite Z.mul_0_r. rewrite decide_False by lia. reflexivity.
  - replace (labelSize * Z.of_nat (Datatypes.S B))
      with (labelSize * Z.of_nat B + labelSize) by lia.
    rewrite seqZ_app by nia. rewrite filter_app, IH. simpl (0 + _).
    destruct (decide (c < Z.of_nat B)) as [Hlt|Hge].
    + rewrite decide_True by lia.
      rewrite (filter_none _ (seqZ (labelSize * Z.of_nat B) labelSize)), app_nil_r;
        [reflexivity|].
      apply Forall_seqZ. intros k Hk Heq.
      assert (Z.of_nat B <= k / labelSize) by (apply Z.div_le_lower_bound; lia).
      lia.
    + destruct (decide (c = Z.of_nat B)) as [->|Hne].
      * rewrite decide_True by lia. simpl.
        replace (Z.of_nat B * labelSize) with (labelSize * Z.of_nat B) by lia.
        apply filter_all, Forall_seqZ. intros k Hk.
        symmetry. apply Z.div_unique with (r := k - labelSize * Z.of_nat B); lia.
      * rewrite decide_False by lia. simpl.
        apply filter_none, Forall_seqZ. intros k Hk Heq.
        assert (k / labelSize < Z.of_nat B + 1)
          by (apply Z.div_lt_upper_bound; lia).
        assert (Z.of_nat B <= k / labelSize) by (apply Z.div_le_lower_bound; lia).
        lia.
Qed.

Lemma contribution_all_positions (input label : list R) (labelSize batchSize c : Z) :
  0 < labelSize -> 0 <= c < batchSize ->
  contribution input label labelSize (seqZ 0 (labelSize * batchSize)) c
  = batchCost input label labelSize c.
Proof.
  intros HL Hc. unfold contribution, batchCost.
  replace batchSize with (Z.of_nat (Z.to_nat batchSize)) by lia.
  rewrite filter_batch by lia. rewrite decide_True by lia.
  replace (c * labelSize) with (c * labelSize + 0) at 1 by lia.
  rewrite <- (fmap_add_seqZ (c * labelSize) 0 labelSize), <- list_fmap_compose.
  reflexivity.
Qed.

(** With [labelSize * batchSize] a multiple of the block size, the launch
    leaves in [cost] the sum of the terms of each batch, in whatever order the
    threads run. *)
Theorem crossEntropyCUDAKernel_full_blocks (input label cost : list R)
    (labelSize batchSize : Z) (sched : list (Z * Z)) :
  0 < labelSize -> 0 <= batchSize ->
  labelSize * batchSize < 2 ^ 31 ->
  (labelSize * batchSize) mod blockSize = 0 ->
  Z.of_nat (length input) = labelSize * batchSize ->
  Z.of_nat (length label) = labelSize * batchSize ->
  Z.of_nat (length cost) = batchSize ->
  isSchedule (gridSizeOf labelSize batchSize) blockSize sched ->
  crossEntropyCUDAKernel sched input label cost labelSize batchSize
  = Ok (batchCost input label labelSize <$> seqZ 0 batchSize).
Proof.
  intros HL HB HN Hrem Hin Hlab Hcost Hsched.
  assert (HN0 : 0 <= labelSize * batchSize) by nia.
  unfold isSchedule in Hsched. rewrite gridSizeOf_small in Hsched by lia.
  rewrite decide_False in Hsched by lia.
  assert (Hq : 0 <= labelSize * batchSize / blockSize)
    by (apply Z.div_pos; unfold blockSize; lia).
  assert (Hexact : labelSize * batchSize / blockSize * blockSize = labelSize * batchSize).
  { pose proof (Z.div_mod (labelSize * batchSize) blockSize ltac:(unfold blockSize; lia)).
    lia. }
  unfold crossEntropyCUDAKernel, memsetZero. rewrite decide_True by lia. bind_ok.
  set (cost0 := replicate (Z.to_nat batchSize) 0%R ++ drop (Z.to_nat batchSize) cost).
  assert (Hlen0 : length cost0 = Z.to_nat batchSize).
  { unfold cost0. rewrite length_app, length_replicate, length_drop. lia. }
  destruct (runThreads_within input label labelSize batchSize HL HB Hin Hlab sched HN)
    with (cost := cost0) as (cost' & Hrun & Hlen & Hcells).
  { intros b t Hbt. rewrite Hsched in Hbt. apply elem_of_gridThreads in Hbt.
    unfold blockSize in *. nia. }
  { lia. }
  rewrite Hrun. f_equal.
  apply (list_eq_same_length _ _ (Z.to_nat batchSize)).
  - rewrite length_fmap, length_seqZ. reflexivity.
  - lia.
  - intros i x y Hi Hx Hy.
    rewrite list_lookup_fmap, lookup_seqZ_lt in Hy by lia. simpl in Hy.
    injection Hy as <-.
    rewrite <- (nth_lookup_Some cost' i 0%R x Hx), Hcells by lia.
    assert (H0 : nth i cost0 0%R = 0%R).
    { unfold cost0. rewrite nth_lookup, lookup_app_l by (rewrite length_replicate; lia).
      rewrite lookup_replicate_2 by lia. reflexivity. }
    rewrite H0, Rplus_0_l.
    rewrite (contribution_Permutation input label labelSize batchSize HL HB Hin Hlab
               (threadId <$> sched) (seqZ 0 (labelSize * batchSize))).
    + apply contribution_all_positions; lia.
    + rewrite Hsched.
      replace (labelSize * batchSize / blockSize)
        with (Z.of_nat (Z.to_nat (labelSize * batchSize / blockSize))) by lia.
      rewrite threadId_gridThreads. rewrite Z2Nat.id by lia. rewrite Hexact. reflexivity.
Qed.

(** C3, the partial block.  When [labelSize * batchSize] is no multiple of
    1024 the grid has one more block, all of whose 1024 threads run: the
    thread of index [labelSize * batchSize] is among them, it reads [label]
    at the position [labelSize * batchSize], outside the array, and the
    launch is undefined in every order of its threads. *)
Theorem crossEntropyCUDAKernel_partial_block_beyond (input label cost : list R)
    (labelSize batchSize : Z) (sched : list (Z * Z)) :
  0 < labelSize -> 0 <= batchSize ->
  labelSize * batchSize + blockSize <= 2 ^ 31 ->
  (labelSize * batchSize) mod blockSize <> 0 ->
  Z.of_nat (length input) = labelSize * batchSize ->
  Z.of_nat (length label) = labelSize * batchSize ->
  Z.of_nat (length cost) = batchSize ->
  isSchedule (gridSizeOf labelSize batchSize) blockSize sched ->
  (labelSize * batchSize / blockSize, (labelSize * batchSize) mod blockSize) ∈ sched /\
  threadId (labelSize * batchSize / blockSize, (labelSize * batchSize) mod blockSize)
    = labelSize * batchSize /\
  (forall cost' : list R,
      crossEntropy input label labelSize batchSize blockSize
        (labelSize * batchSize / blockSize) ((labelSize * batchSize) mod blockSize) cost'
      = Undefined (OutOfBounds (labelSize * batchSize) (length label))) /\
  exists k, labelSize * batchSize <= k /\
    crossEntropyCUDAKernel sched input label cost labelSize batchSize
      = Undefined (OutOfBounds k (length label)).
Proof.
  intros HL HB HN Hrem Hin Hlab Hcost Hsched.
  destruct (launch_with_partial_block input label labelSize batchSize
              HL HB Hin Hlab sched cost HN Hrem Hcost Hsched) as [Hmem Hrun].
  assert (Hid : labelSize * batchSize / blockSize * blockSize
                + (labelSize * batchSize) mod blockSize = labelSize * batchSize).
  { pose proof (Z.div_mod (labelSize * batchSize) blockSize ltac:(unfold blockSize; lia)).
    lia. }
  split; [exact Hmem|]. split; [exact Hid|]. split; [|exact Hrun].
  intros cost'.
  rewrite (crossEntropy_beyond input label labelSize batchSize HL HB Hin Hlab)
    by (unfold blockSize in *; lia).
  rewrite Hid. reflexivity.
Qed.

Lemma crossEntropyCUDAKernel_partial_block_beyond_witness :
  let input := [(9 / 10)%R; (1 / 10)%R] in
  let label := [1%R; 0%R] in
  isSchedule (gridSizeOf 2 1) blockSize (gridThreads 1 1024) /\
  (0, 2) ∈ gridThreads 1 1024 /\
  threadId (0, 2) = 2 /\
  (forall cost' : list R,
      crossEntropy input label 2 1 blockSize 0 2 cost' = Undefined (OutOfBounds 2 2)) /\
  exists k, 2 <= k /\
    crossEntropyCUDAKernel (gridThreads 1 1024) input label [0%R] 2 1
      = Undefined (OutOfBounds k 2).
Proof.
  assert (Hs : isSchedule (gridSizeOf 2 1) blockSize (gridThreads 1 1024))
    by exact (Permutation_refl (gridThreads 1 1024)).
  split; [exact Hs|].
  exact (crossEntropyCUDAKernel_partial_block_beyond
           [(9 / 10)%R; (1 / 10)%R] [1%R; 0%R] [0%R] 2 1 (gridThreads 1 1024)
           eq_refl (fun H => match H with eq_refl => I end)
           (fun H => match H with eq_refl => I end)
           (fun H => match H in _ = z return match z with 0 => False | _ => True end
                     with eq_refl => I end)
           eq_refl eq_refl eq_refl Hs).
Defined.

(** C1, the example of the specification.  With [labelVectorSize = 1],
    [batchSize = 3], [input = [0.5, 0.5, 0.5]] and [label = [1, 0, 1]] the
    sums that the claim expects are [-log(0.5)] for each batch; the launch
    has one block of 1024 threads, the thread 3 of block 0 is among them,
    and the result is undefined in every order of the threads: a thread of
    index 3 or more reads [label] outside its three cells. *)
Theorem crossEntropyCUDAKernel_example_undefined (sched : list (Z * Z)) (cost : list R) :
  Z.of_nat (length cost) = 3 ->
  isSchedule (gridSizeOf 1 3) blockSize sched ->
  gridSizeOf 1 3 = 1 /\
  (forall b, 0 <= b < 3 ->
     batchCost [(1 / 2)%R; (1 / 2)%R; (1 / 2)%R] [1%R; 0%R; 1%R] 1 b = (- ln (1 / 2))%R) /\
  (0, 3) ∈ sched /\
  exists k, 3 <= k /\
    crossEntropyCUDAKernel sched [(1 / 2)%R; (1 / 2)%R; (1 / 2)%R] [1%R; 0%R; 1%R] cost 1 3
      = Undefined (OutOfBounds k 3).
Proof.
  intros Hcost Hsched.
  split; [reflexivity|]. split.
  - intros b Hb. unfold batchCost, sumR, termAt, crossEntropyTerm.
    assert (Hcases : b = 0 \/ b = 1 \/ b = 2) by lia.
    assert (Hhalf : (1 - 1 / 2 = 1 / 2)%R) by lra.
    destruct Hcases as [->|[->| ->]]; simpl; rewrite ?Hhalf; ring.
  - exact (launch_with_partial_block
             [(1 / 2)%R; (1 / 2)%R; (1 / 2)%R] [1%R; 0%R; 1%R] 1 3
             ltac:(lia) ltac:(lia) eq_refl eq_refl sched cost
             ltac:(unfold blockSize; lia) ltac:(vm_compute; discriminate) Hcost Hsched).
Qed.

Lemma crossEntropyCUDAKernel_example_undefined_witness :
  isSchedule (gridSizeOf 1 3) blockSize (gridThreads 1 1024) /\
  (0, 3) ∈ gridThreads 1 1024 /\
  exists k, 3 <= k /\
    crossEntropyCUDAKernel (gridThreads 1 1024)
      [(1 / 2)%R; (1 / 2)%R; (1 / 2)%R] [1%R; 0%R; 1%R] [0%R; 0%R; 0%R] 1 3
      = Undefined (OutOfBounds k 3).
Proof.
  assert (Hs : isSchedule (gridSizeOf 1 3) blockSize (gridThreads 1 1024))
    by exact (Permutation_refl (gridThreads 1 1024)).
  split; [exact Hs|].
  exact (proj2 (proj2 (crossEntropyCUDAKernel_example_undefined
                         (gridThreads 1 1024) [0%R; 0%R; 0%R] eq_refl Hs))).
Defined.

(** ** The gradient check *)

Section GradientCheckProperties.

Context {S : Type} `{ScalarType S}.
Variable func : list S -> S * list S.





End GradientCheckProperties.


(** C2, the wrong gradient.  For [func] with the value [x0 * x0] and the
    gradient [x0] at the point [x0 = 3], the central difference is 6 and the
    relative error of the claim is [3 / 6], above [epsilon * 0.1]: the check
    of the claim fails.  The code divides the [int] 3 by the [int] 6, finds
    0, and returns true; so for [ScalarType = int] with [epsilon = 1], and so
    for the exact scalars with [epsilon = 0.0001]. *)
Theorem gradientCheck_accepts_wrong_gradient :
  gradientCheck squareInt_wrongGradient [3] 1 = Ok true /\
  claimedNumericGradient squareInt_wrongGradient [3] 1 0 == 6 /\
  claimedRelativeError 6 3 == 1 # 2 /\
  claimedGradientCheck squareInt_wrongGradient [3] 1 = false /\
  relDiff (sc_div_2eps (16 - 4) 1) 3 = 0 /\
  gradientCheck squareExact_wrongGradient [3%Q] (1 # 10000)%Q = Ok true /\
  claimedGradientCheck squareExact_wrongGradient [3%Q] (1 # 10000)%Q = false.
Proof.
  repeat split; vm_compute; reflexivity.
Qed.

(** ** Concrete runs *)

Example computeDescriptor_2_3 :
  computeDescriptor [2; 3] = Ok (4%nat, [1; 1; 3; 2], [2; 2; 2; 1]).
Proof. reflexivity. Qed.

Example computeDescriptor_5_dimensions :
  computeDescriptor [2; 3; 4; 5; 6]
  = Ok (5%nat, [6; 5; 4; 3; 2], [120; 24; 6; 2; 1]).
Proof. reflexivity. Qed.

Example init_examples :
  (exists t' h',
     init CPU_NAIVE IsFloat 4 (fun _ _ => true) (fun _ => 0%Q) (construct [2; 3] "t") ∅
     = Ok (true, t', h')) /\
  init CPU_NAIVE IsFloat 4 (fun _ _ => true) (fun _ => 0%Q) (construct [2; 0] "t") ∅
    = Ok (false, construct [2; 0] "t", ∅) /\
  init CPU_NAIVE IsFloat 4 (fun _ _ => false) (fun _ => 0%Q) (construct [2; 3] "t") ∅
    = Ok (false, construct [2; 3] "t", ∅) /\
  init GPU_CUDA IsFloat 4 (fun _ _ => true) (fun _ => 0%Q) (construct [] "t") ∅
    = Undefined (OutOfBounds 4 4).
Proof. split; [eexists _, _; reflexivity|]. repeat split. Qed.

Example reshape_examples :
  reshape GPU_CUDA IsFloat [3; 2] (construct [2; 3] "t")
    = Ok (true, mkTensor [3; 2] "t" None
                  (DescSet CUDNN_DATA_FLOAT 4 [1; 1; 2; 3] [3; 3; 3; 1])) /\
  reshape GPU_CUDA IsFloat [4; 2] (construct [2; 3] "t") = Ok (false, construct [2; 3] "t") /\
  reshape CPU_NAIVE IsFloat [6] (construct [2; 3] "t") = Ok (true, construct [6] "t").
Proof. repeat split. Qed.

Example gradientCheck_examples :
  gradientCheck sumSquaresInt [3; 4] 1 = Ok true /\
  claimedGradientCheck sumSquaresInt [3; 4] 1 = true /\
  gradientCheck squareInt_wrongGradient [0] 1 = Ok true /\
  gradientCheck squareInt_wrongGradient [3; 4] 1 = Undefined (OutOfBounds 1 1).
Proof. repeat split. Qed.

Example batchCost_example :
  batchCost [(9 / 10)%R; (1 / 10)%R] [1%R; 0%R] 2 0 = (- ln (9 / 10) - ln (9 / 10))%R.
Proof.
  unfold batchCost, sumR, termAt, crossEntropyTerm. simpl.
  replace (1 - 1 / 10)%R with (9 / 10)%R by lra. ring.
Qed.

Example gridSizeOf_examples :
  gridSizeOf 1 3 = 1 /\ gridSizeOf 2 1 = 1 /\ gridSizeOf 1024 1 = 1 /\
  gridSizeOf 10 205 = 3 /\ gridSizeOf 0 5 = 0.
Proof. repeat split. Qed.

Lemma crossEntropyCUDAKernel_full_blocks_witness :
  let input := replicate 1024 (1 / 2)%R in
  let label := replicate 1024 1%R in
  isSchedule (gridSizeOf 1024 1) blockSize (gridThreads 1 1024) /\
  crossEntropyCUDAKernel (gridThreads 1 1024) input label [0%R] 1024 1
  = Ok (batchCost input label 1024 <$> seqZ 0 1).
Proof.
  assert (Hs : isSchedule (gridSizeOf 1024 1) blockSize (gridThreads 1 1024))
    by exact (Permutation_refl (gridThreads 1 1024)).
  split; [exact Hs|].
  exact (crossEntropyCUDAKernel_full_blocks
           (replicate 1024 (1 / 2)%R) (replicate 1024 1%R) [0%R] 1024 1
           (gridThreads 1 1024)
           eq_refl (fun H => match H with eq_refl => I end) eq_refl eq_refl
           eq_refl eq_refl eq_refl Hs).
Defined.

(** A GPU tensor after [reshape] and after [operator=] has a descriptor of
    its shape, when the shape has a dimension. *)
Theorem reshape_and_assign_set_descriptor {DataType : Type} (kind : ElementKind)
    (newShape : Shape) (t t_in : Tensor) (h : gmap nat (Block DataType)) :
  (1 <= dimension newShape)%nat ->
  shapeSize newShape = shapeSize (m_shape t) ->
  (1 <= dimension (m_shape t_in))%nat ->
  (exists t',
     reshape GPU_CUDA kind newShape t = Ok (true, t') /\
     m_shape t' = newShape /\
     describesShape kind t') /\
  (exists t' h',
     assign GPU_CUDA kind t t_in h = Ok (t', h') /\
     m_shape t' = m_shape t_in /\
     describesShape kind t').
Proof.
  intros Hn Heq Hin. split.
  - exact (reshape_describes kind newShape t Hn Heq).
  - exact (assign_describes kind t t_in h Hin).
Qed.

Lemma reshape_and_assign_set_descriptor_witness :
  (exists t',
     reshape GPU_CUDA IsFloat [3; 2] (construct [2; 3] "t") = Ok (true, t') /\
     m_shape t' = [3; 2] /\
     describesShape IsFloat t') /\
  (exists t' h',
     assign GPU_CUDA IsFloat (construct [4] "u") (construct [2; 3] "t")
       (∅ : gmap nat (Block Q)) = Ok (t', h') /\
     m_shape t' = [2; 3] /\
     describesShape IsFloat t').
Proof.
  exact (reshape_and_assign_set_descriptor IsFloat [3; 2]
           (construct [2; 3] "t") (construct [2; 3] "t") ∅
           (le_S 1 1 (le_n 1)) eq_refl (le_S 1 1 (le_n 1))).
Defined.

Lemma copyConstruct_descriptor_not_set_witness :
  exists A' h',
    init GPU_CUDA IsFloat 4 (fun _ _ => true) (fun _ => 0%Q) (construct [2; 3] "A") ∅
    = Ok (true, A', h') /\
    m_gpuTensorDescriptor A' = DescSet CUDNN_DATA_FLOAT 4 [1; 1; 3; 2] [2; 2; 2; 1] /\
    m_shape (copyConstruct A' h').1 = [2; 3] /\
    m_gpuTensorDescriptor (copyConstruct A' h').1 = DescCreated /\
    ~ describesShape IsFloat (copyConstruct A' h').1.
Proof.
  destruct (copyConstruct_descriptor_not_set IsFloat 4 (fun _ _ => true) (fun _ => 0%Q)
              (construct [2; 3] "A") ∅) as (_ & _ & _ & Hinit).
  destruct (Hinit (le_S 1 1 (le_n 1)))
    as (r & A' & h' & Hi & Hs & Hdesc & Hs2 & Hd2 & Hn2).
  assert (Hr : r = true).
  { assert (Hc : exists A0 h0,
               init GPU_CUDA IsFloat 4 (fun _ _ => true) (fun _ => 0%Q)
                 (construct [2; 3] "A") ∅ = Ok (true, A0, h0))
      by (eexists _, _; reflexivity).
    destruct Hc as (A0 & h0 & Hc). rewrite Hc in Hi. injection Hi as <- _ _. reflexivity. }
  subst r. exists A', h'. split; [exact Hi|]. split.
  { unfold describesShape in Hdesc. rewrite Hs in Hdesc. exact Hdesc. }
  split; [exact Hs2|]. split; [exact Hd2|exact Hn2].
Defined.

(** * Further properties of the code *)

(** ** [randomize] *)

Section RandomizeProperties.

Context {DataType Gen : Type}.
Variable getRandom : Gen -> DataType * Gen.

Local Abbreviation Heap := (gmap nat (Block DataType)).

Lemma length_draws (n : nat) (g : Gen) : length (draws getRandom n g).1 = n.
Proof.
  revert g. induction n as [|n IH]; intros g; [reflexivity|].
  simpl. destruct (getRandom g) as [v g1]. specialize (IH g1).
  destruct (draws getRandom n g1) as [vs g2]. simpl in *. lia.
Qed.

Lemma block_eta (blk : Block DataType) :
  mkBlock (refCount blk) (sizeInByte blk) (hostData blk) (deviceData blk) = blk.
Proof. destruct blk; reflexivity. Qed.

Lemma randomizeBody_ok (t : Tensor) (id n : nat) (h : Heap) (g g1 : Gen)
    (blk : Block DataType) (v : DataType) :
  m_data t = Some id -> h !! id = Some blk -> (n < length (hostData blk))%nat ->
  getRandom g = (v, g1) ->
  randomizeBody getRandom t n (h, g)
  = Ok (<[id := mkBlock (refCount blk) (sizeInByte blk)
                  (<[n := v]> (hostData blk)) (deviceData blk)]> h, g1).
Proof.
  intros Hd Hb Hn Hg. unfold randomizeBody. rewrite Hg.
  unfold writeAt, dataHandle. rewrite Hd, Hb. bind_ok.
  rewrite decide_True by exact Hn. reflexivity.
Qed.

(** The loop of [randomize] from the index [first] on: the cells
    [first .. first + count - 1] receive the next [count] values. *)
Lemma randomizeLoop_fills (t : Tensor) (id : nat) :
  m_data t = Some id ->
  forall (count first : nat) (h : Heap) (g : Gen) (blk : Block DataType),
    h !! id = Some blk ->
    (first + count <= length (hostData blk))%nat ->
    forLoop (randomizeBody getRandom t) first count (h, g)
    = Ok (<[id := mkBlock (refCount blk) (sizeInByte blk)
                    (take first (hostData blk) ++ (draws getRandom count g).1
                     ++ drop (first + count) (hostData blk))
                    (deviceData blk)]> h,
          (draws getRandom count g).2).
Proof.
  intros Hd. induction count as [|c IH]; intros first h g blk Hb Hlen.
  - simpl. rewrite Nat.add_0_r, take_drop, block_eta, insert_id by exact Hb.
    reflexivity.
  - cbn [forLoop draws].
    destruct (getRandom g) as [v g1] eqn:Hg.
    rewrite (randomizeBody_ok t id first h g g1 blk v Hd Hb ltac:(lia) Hg). bind_ok.
    set (blk1 := mkBlock (refCount blk) (sizeInByte blk)
                   (<[first := v]> (hostData blk)) (deviceData blk)).
    rewrite (IH (Datatypes.S first) (<[id := blk1]> h) g1 blk1)
      by (rewrite ?lookup_insert_eq; simpl; rewrite ?length_insert; (reflexivity || lia)).
    destruct (draws getRandom c g1) as [vs g2]. simpl.
    rewrite insert_insert_eq. do 3 f_equal.
    rewrite (take_S_r _ first v) by (apply list_lookup_insert_eq; lia).
    rewrite take_insert_ge by lia.
    rewrite drop_insert_lt by lia.
    rewrite <- app_assoc. simpl.
    replace (first + Datatypes.S c)%nat with (Datatypes.S (first + c)) by lia.
    reflexivity.
Qed.

(** [randomize()] on a tensor whose storage holds at least [size]
    elements, [size] being the [unsigned int] that the code keeps of
    [shape.size()]: element [i] below [size] reads back as the [i]-th value
    drawn from the source, the source has advanced by [size] values, the
    elements from [size] on and the storage of other tensors are untouched,
    and on a GPU the mirror equals the host storage. *)
Theorem randomize_reads_back (dev : DeviceType) (t : Tensor) (h : Heap) (g : Gen)
    (id : nat) (blk : Block DataType) :
  m_data t = Some id -> h !! id = Some blk ->
  (Z.to_nat (uint_of (shapeSize (m_shape t))) <= length (hostData blk))%nat ->
  exists h' blk',
    randomize dev getRandom t h g
    = Ok (h', (draws getRandom (Z.to_nat (uint_of (shapeSize (m_shape t)))) g).2) /\
    h' !! id = Some blk' /\
    hostData blk'
    = (draws getRandom (Z.to_nat (uint_of (shapeSize (m_shape t)))) g).1
      ++ drop (Z.to_nat (uint_of (shapeSize (m_shape t)))) (hostData blk) /\
    (forall i v,
        (draws getRandom (Z.to_nat (uint_of (shapeSize (m_shape t)))) g).1 !! i = Some v ->
        readAt t h' i = Ok v) /\
    (forall i, (Z.to_nat (uint_of (shapeSize (m_shape t))) <= i)%nat ->
               readAt t h' i = readAt t h i) /\
    (forall id', id' <> id -> h' !! id' = h !! id') /\
    refCount blk' = refCount blk /\
    (dev = GPU_CUDA -> deviceData blk' = hostData blk') /\
    (dev = CPU_NAIVE -> deviceData blk' = deviceData blk).
Proof.
  intros Hd Hb Hlen. set (n := Z.to_nat (uint_of (shapeSize (m_shape t)))) in *.
  unfold randomize. fold n.
  rewrite (randomizeLoop_fills t id Hd n 0 h g blk Hb) by lia. bind_ok.
  rewrite take_0. simpl app. simpl (0 + n)%nat.
  set (host' := (draws getRandom n g).1 ++ drop n (hostData blk)).
  assert (Hlen' : length (draws getRandom n g).1 = n) by apply length_draws.
  assert (Hread : forall (h' : Heap) (blk' : Block DataType),
             h' !! id = Some blk' -> hostData blk' = host' ->
             (forall i v, (draws getRandom n g).1 !! i = Some v -> readAt t h' i = Ok v) /\
             (forall i, (n <= i)%nat -> readAt t h' i = readAt t h i)).
  { intros h' blk' Hb' Hh'. split.
    - intros i v Hv. apply (readAt_lookup t h' id blk' i v Hd Hb').
      rewrite Hh'. unfold host'. rewrite lookup_app_l; [exact Hv|].
      apply lookup_lt_Some in Hv. exact Hv.
    - intros i Hi. unfold readAt, dataHandle. rewrite Hd, Hb', Hb. bind_ok. bind_ok.
      rewrite Hh'. unfold host'.
      rewrite lookup_app_r by lia. rewrite lookup_drop, Hlen'.
      replace (n + (i - n))%nat with i by lia.
      rewrite length_app, length_drop, Hlen'.
      replace (n + (length (hostData blk) - n))%nat with (length (hostData blk)) by lia.
      reflexivity. }
  set (blk2 := mkBlock (refCount blk) (sizeInByte blk) host' (deviceData blk)).
  set (blk3 := mkBlock (refCount blk) (sizeInByte blk) host' host').
  destruct dev.
  - exists (<[id := blk2]> h), blk2. split; [reflexivity|].
    rewrite lookup_insert_eq. split; [reflexivity|]. split; [reflexivity|].
    destruct (Hread _ blk2 (lookup_insert_eq h id _) eq_refl) as [Hr1 Hr2].
    split; [exact Hr1|]. split; [exact Hr2|].
    split; [intros id' Hne; apply lookup_insert_ne; congruence|].
    split; [reflexivity|]. split; [discriminate|reflexivity].
  - rewrite Hd. unfold blobCopyFromHostToDevice.
    assert (Hb3 : alter (fun b : Block DataType =>
                           mkBlock (refCount b) (sizeInByte b) (hostData b) (hostData b))
                    id (<[id := blk2]> h) !! id = Some blk3)
      by (rewrite lookup_alter_eq, lookup_insert_eq; reflexivity).
    eexists _, blk3. split; [reflexivity|].
    split; [exact Hb3|]. split; [reflexivity|].
    destruct (Hread _ blk3 Hb3 eq_refl) as [Hr1 Hr2].
    split; [exact Hr1|]. split; [exact Hr2|].
    split; [intros id' Hne; rewrite lookup_alter_ne, lookup_insert_ne by congruence;
            reflexivity|].
    split; [reflexivity|]. split; [reflexivity|discriminate].
Qed.

(** [randomize()] on a tensor that has no storage (constructed and not
    initialised, or cleared) and whose size, as the [unsigned int] that the
    code keeps, is positive writes through a null handle. *)
Theorem randomize_without_storage (dev : DeviceType) (t : Tensor) (h : Heap) (g : Gen) :
  m_data t = None -> 0 < uint_of (shapeSize (m_shape t)) ->
  randomize dev getRandom t h g = Undefined NullHandle.
Proof.
  intros Hd Hpos. unfold randomize.
  destruct (Z.to_nat (uint_of (shapeSize (m_shape t)))) as [|n] eqn:Hn; [lia|].
  cbn [forLoop].
  assert (Hbody : randomizeBody getRandom t 0 (h, g) = Undefined NullHandle).
  { unfold randomizeBody. destruct (getRandom g) as [v g1].
    unfold writeAt, dataHandle. rewrite Hd. reflexivity. }
  rewrite Hbody. reflexivity.
Qed.

End RandomizeProperties.

Lemma randomize_reads_back_witness :
  let t := mkTensor [3] "t" (Some 0%nat) DescCreated in
  let h : gmap nat (Block Z) := {[ 0%nat := mkBlock 1 12 [7; 7; 7; 7] [] ]} in
  let next := fun g : Z => (10 * g, g + 1) in
  exists h' blk',
    randomize GPU_CUDA next t h 1 = Ok (h', 4) /\
    h' !! 0%nat = Some blk' /\
    hostData blk' = [10; 20; 30; 7] /\
    deviceData blk' = hostData blk'.
Proof.
  intros t h next.
  assert (Hd : m_data t = Some 0%nat) by reflexivity.
  assert (Hb : h !! 0%nat = Some (mkBlock 1 12 [7; 7; 7; 7] [])) by reflexivity.
  destruct (randomize_reads_back next GPU_CUDA t h 1 0%nat
              (mkBlock 1 12 [7; 7; 7; 7] []) Hd Hb (le_S 3 3 (le_n 3)))
    as (h' & blk' & Hrun & Hb' & Hhost & _ & _ & _ & _ & Hdev & _).
  exists h', blk'. split; [exact Hrun|]. split; [exact Hb'|].
  split; [exact Hhost|exact (Hdev eq_refl)].
Defined.

Lemma randomize_without_storage_witness :
  randomize CPU_NAIVE (fun g : Z => (10 * g, g + 1)) (construct [2; 3] "t")
    (∅ : gmap nat (Block Z)) 1
  = Undefined NullHandle.
Proof.
  exact (randomize_without_storage (fun g : Z => (10 * g, g + 1)) CPU_NAIVE
           (construct [2; 3] "t") ∅ 1 eq_refl eq_refl).
Defined.

(** ** The output operator *)

Lemma string_app_assoc (a b c : string) : (a +:+ b) +:+ c = a +:+ (b +:+ c).
Proof.
  induction a as [|ch a IH]; [reflexivity|].
  change (String ch ((a +:+ b) +:+ c) = String ch (a +:+ (b +:+ c))).
  now rewrite IH.
Qed.

Lemma string_concat_cons (sep x y : string) (l : list string) :
  String.concat sep (x :: y :: l) = x +:+ sep +:+ String.concat sep (y :: l).
Proof. reflexivity. Qed.

Section PrintProperties.

Context {DataType : Type}.
Variable showData : DataType -> string.
Variable showUInt : Z -> string.

Local Abbreviation Heap := (gmap nat (Block DataType)).

Lemma printBody_ok (t : Tensor) (h : Heap) (id : nat) (blk : Block DataType)
    (size : Z) (n : nat) (v : DataType) (stream : string) :
  m_data t = Some id -> h !! id = Some blk -> hostData blk !! n = Some v ->
  printBody showData t h size n stream
  = Ok ((stream +:+ showData v)
        +:+ (if decide (Z.of_nat n = uint_of (size - 1)) then "}" else ", ")).
Proof.
  intros Hd Hb Hv. unfold printBody.
  rewrite (readAt_lookup t h id blk n v Hd Hb Hv). reflexivity.
Qed.

(** The loop of the output operator over the last [count] elements. *)
Lemma printLoop_text (t : Tensor) (h : Heap) (id : nat) (blk : Block DataType)
    (size : Z) :
  m_data t = Some id -> h !! id = Some blk ->
  0 < size < 2 ^ 32 ->
  (Z.to_nat size <= length (hostData blk))%nat ->
  forall (count first : nat) (stream : string),
    (first + Datatypes.S count = Z.to_nat size)%nat ->
    forLoop (printBody showData t h size) first (Datatypes.S count) stream
    = Ok (stream
          +:+ String.concat ", "
                (showData <$> take (Datatypes.S count) (drop first (hostData blk)))
          +:+ "}").
Proof.
  intros Hd Hb Hsize Hlen.
  assert (Hlast : uint_of (size - 1) = size - 1) by (apply uint_of_small; lia).
  induction count as [|c IH]; intros first stream Hfc.
  - destruct (lookup_lt_is_Some_2 (hostData blk) first ltac:(lia)) as [v Hv].
    cbn [forLoop].
    rewrite (printBody_ok t h id blk size first v stream Hd Hb Hv). bind_ok.
    rewrite Hlast, decide_True by lia.
    rewrite (drop_S _ v first Hv). simpl.
    rewrite string_app_assoc. reflexivity.
  - destruct (lookup_lt_is_Some_2 (hostData blk) first ltac:(lia)) as [v Hv].
    destruct (lookup_lt_is_Some_2 (hostData blk) (Datatypes.S first) ltac:(lia)) as [w Hw].
    change (forLoop (printBody showData t h size) first (Datatypes.S (Datatypes.S c)) stream)
      with (printBody showData t h size first stream
            ≫= forLoop (printBody showData t h size) (Datatypes.S first) (Datatypes.S c)).
    rewrite (printBody_ok t h id blk size first v stream Hd Hb Hv). bind_ok.
    rewrite Hlast, decide_False by lia.
    rewrite (IH (Datatypes.S first)) by lia.
    rewrite (drop_S _ v first Hv), (drop_S _ w (Datatypes.S first) Hw).
    rewrite !firstn_cons, !fmap_cons, string_concat_cons.
    rewrite !string_app_assoc. reflexivity.
Qed.

(** The text written by the output operator, with [size] the
    [unsigned int] that the code keeps of [shape.size()]: [size], [" {"], the
    first [size] elements separated by [", "] and ["}"]; when [size] is 0
    nothing follows the opening brace. *)
Theorem printTensor_text (t : Tensor) (h : Heap) (stream : string) :
  (uint_of (shapeSize (m_shape t)) = 0 ->
   printTensor showData showUInt t h stream = Ok (stream +:+ showUInt 0 +:+ " {")) /\
  (forall (id : nat) (blk : Block DataType),
      m_data t = Some id -> h !! id = Some blk ->
      0 < uint_of (shapeSize (m_shape t)) ->
      (Z.to_nat (uint_of (shapeSize (m_shape t))) <= length (hostData blk))%nat ->
      printTensor showData showUInt t h stream
      = Ok (stream +:+ showUInt (uint_of (shapeSize (m_shape t))) +:+ " {"
            +:+ String.concat ", "
                  (showData <$> take (Z.to_nat (uint_of (shapeSize (m_shape t)))) (hostData blk))
            +:+ "}")).
Proof.
  split.
  - intros Hz. unfold printTensor. rewrite Hz. simpl.
    rewrite string_app_assoc. reflexivity.
  - intros id blk Hd Hb Hpos Hlen. unfold printTensor.
    assert (Hsize : 0 < uint_of (shapeSize (m_shape t)) < 2 ^ 32).
    { split; [exact Hpos|]. unfold uint_of. apply Z.mod_pos_bound. lia. }
    destruct (Z.to_nat (uint_of (shapeSize (m_shape t)))) as [|c] eqn:Hn; [lia|].
    rewrite (printLoop_text t h id blk (uint_of (shapeSize (m_shape t))) Hd Hb Hsize
               ltac:(lia) c 0) by lia.
    rewrite drop_0, !string_app_assoc. reflexivity.
Qed.

End PrintProperties.

Lemma printTensor_text_witness :
  let t := mkTensor [3] "t" (Some 0%nat) DescCreated in
  let h : gmap nat (Block Z) := {[ 0%nat := mkBlock 1 12 [1; 2; 3] [] ]} in
  let show := fun z : Z =>
    if decide (z = 0) then "0" else if decide (z = 1) then "1"
    else if decide (z = 2) then "2" else "3" in
  printTensor show show t h "" = Ok "3 {1, 2, 3}" /\
  printTensor show show (construct [0] "t") h "" = Ok "0 {".
Proof.
  intros t h show.
  destruct (printTensor_text show show t h "") as [_ Hpos].
  destruct (printTensor_text show show (construct [0] "t") h "") as [Hzero _].
  split.
  - exact (Hpos 0%nat (mkBlock 1 12 [1; 2; 3] []) eq_refl eq_refl eq_refl (le_n 3)).
  - exact (Hzero eq_refl).
Defined.

(** ** Initialisation from a short list, element access, reshape, assignment *)

Section TensorMoreProperties.

Context {DataType : Type}.
Variable DeviceUsed : DeviceType.
Variable elementKind : ElementKind.
Variable sizeofDataType : Z.
Variable mallocOk : gmap nat (Block DataType) -> Z -> bool.
Variable garbage : nat -> DataType.

Local Abbreviation Heap := (gmap nat (Block DataType)).
Local Abbreviation blobAlloc' := (blobAlloc DeviceUsed sizeofDataType mallocOk garbage).
Local Abbreviation initList' :=
  (initList DeviceUsed elementKind sizeofDataType mallocOk garbage).

(** [init(values)] with fewer values than elements ([size] the
    [unsigned int] that the code keeps of [shape.size()]): the values fill
    the first elements and every further element below [size] is what the
    allocation returned. *)
Theorem initList_shortfall (vals : list DataType) (t : Tensor) (h : Heap) :
  0 < sizeofDataType ->
  Z.of_nat (length vals) <= uint_of (shapeSize (m_shape t)) ->
  0 < uint_of (shapeSize (m_shape t)) ->
  (blobAlloc' h (m_data t) (uint_of (shapeSize (m_shape t)) * sizeofDataType)).1.1 = true ->
  exists t' h',
    initList' vals t h = Ok (true, t', h') /\
    m_shape t' = m_shape t /\
    (forall i v, vals !! i = Some v -> readAt t' h' i = Ok v) /\
    (forall i, (length vals <= i)%nat -> Z.of_nat i < uint_of (shapeSize (m_shape t)) ->
               readAt t' h' i = Ok (garbage i)).
Proof.
  intros Hsz Hlen Hpos Hres.
  set (size := uint_of (shapeSize (m_shape t))) in *.
  assert (Hdim : (1 <= dimension (m_shape t))%nat) by (apply size_dimension; fold size; lia).
  destruct (blobAlloc' h (m_data t) (size * sizeofDataType)) as [[res h1] d] eqn:Halloc.
  simpl in Hres. subst res.
  assert (Hr : (if decide (uint_of (shapeSize (m_shape t)) = 0) then (false, h, m_data t)
                else blobAlloc' h (m_data t)
                       (uint_of (shapeSize (m_shape t)) * sizeofDataType))
               = (true, h1, d)).
  { fold size. rewrite decide_False by lia. exact Halloc. }
  destruct (init_result DeviceUsed elementKind sizeofDataType mallocOk garbage
              t h h1 true d Hr (or_intror Hdim))
    as (t1 & Hi & Hs1 & _ & Hd1 & _).
  destruct (blobAlloc_true _ _ _ _ _ _ _ _ _ Halloc)
    as (_ & id & blk & -> & Hblk & _ & _ & Hhost).
  rewrite Z.div_mul in Hhost by lia.
  unfold initList. rewrite Hi. bind_ok. cbn [negb].
  rewrite Hs1. fold size.
  rewrite decide_False by lia.
  rewrite firstn_all.
  assert (Hfresh : length (hostData blk) = Z.to_nat size)
    by (rewrite Hhost; unfold freshData; rewrite length_fmap, length_seq; reflexivity).
  rewrite (copyToHost_ok _ t1 h1 id blk Hd1 Hblk) by lia. bind_ok.
  set (host' := vals ++ drop (length vals) (hostData blk)).
  assert (Hread : forall (t' : Tensor) (h' : Heap) (blk' : Block DataType),
             m_data t' = Some id -> h' !! id = Some blk' -> hostData blk' = host' ->
             (forall i v, vals !! i = Some v -> readAt t' h' i = Ok v) /\
             (forall i, (length vals <= i)%nat -> Z.of_nat i < size ->
                        readAt t' h' i = Ok (garbage i))).
  { intros t' h' blk' Hd' Hb' Hh'. split.
    - intros i v Hv. apply (readAt_lookup t' h' id blk' i v Hd' Hb').
      rewrite Hh'. unfold host'. rewrite lookup_app_l; [exact Hv|].
      apply lookup_lt_Some in Hv. exact Hv.
    - intros i Hi' Hlt. apply (readAt_lookup t' h' id blk' i _ Hd' Hb').
      rewrite Hh'. unfold host'. rewrite lookup_app_r by lia.
      rewrite lookup_drop, Hhost. unfold freshData.
      replace (length vals + (i - length vals))%nat with i by lia.
      rewrite list_lookup_fmap, lookup_seq_lt by lia. reflexivity. }
  set (blk2 := mkBlock (refCount blk) (sizeInByte blk) host' (deviceData blk)).
  destruct DeviceUsed.
  - exists t1, (<[id := blk2]> h1). split; [reflexivity|]. split; [exact Hs1|].
    apply (Hread t1 _ blk2 Hd1); [apply lookup_insert_eq|reflexivity].
  - set (blk3 := mkBlock (refCount blk2) (sizeInByte blk2) (hostData blk2) (hostData blk2)).
    assert (Hb3 : blobCopyFromHostToDevice (<[id := blk2]> h1) (m_data t1) !! id = Some blk3).
    { rewrite Hd1. unfold blobCopyFromHostToDevice.
      rewrite lookup_alter_eq, lookup_insert_eq. reflexivity. }
    destruct (updateGPUTensorDescriptor_defined GPU_CUDA elementKind t1)
      as (t2 & Hu & Hs2 & _ & Hd2 & _); [right; rewrite Hs1; exact Hdim|].
    cbv zeta. rewrite Hu. bind_ok.
    eexists _, _. split; [reflexivity|]. split; [congruence|].
    apply (Hread _ _ blk3); [congruence|exact Hb3|reflexivity].
Qed.

(** Element access: an element written through [operator[]] is read back,
    the other elements and the storage of tensors on other blocks keep their
    values; the write is defined exactly when the read is. *)
Theorem writeAt_readAt (t : Tensor) (h h' : Heap) (i : nat) (v : DataType) :
  writeAt t h i v = Ok h' ->
  readAt t h' i = Ok v /\
  (forall j, j <> i -> readAt t h' j = readAt t h j) /\
  (forall (t2 : Tensor) (j : nat), m_data t2 <> m_data t -> readAt t2 h' j = readAt t2 h j) /\
  (forall t2 : Tensor, m_data t2 = m_data t -> readAt t2 h' i = Ok v) /\
  isOk (readAt t h i).
Proof.
  unfold writeAt, dataHandle. intros Hw.
  destruct (m_data t) as [id|] eqn:Hd; [|discriminate Hw].
  destruct (h !! id) as [blk|] eqn:Hb; [|discriminate Hw].
  revert Hw. bind_ok.
  destruct (decide (i < length (hostData blk))%nat) as [Hi|Hi]; [|discriminate].
  intros Hw. injection Hw as <-.
  assert (Hsame : forall t2 : Tensor, m_data t2 = Some id ->
            forall j, readAt t2 (<[id := mkBlock (refCount blk) (sizeInByte blk)
                                           (<[i := v]> (hostData blk)) (deviceData blk)]> h) j
                      = match <[i := v]> (hostData blk) !! j with
                        | Some x => Ok x
                        | None => Undefined (OutOfBounds (Z.of_nat j)
                                              (length (<[i := v]> (hostData blk))))
                        end).
  { intros t2 Hd2 j. unfold readAt, dataHandle. rewrite Hd2, lookup_insert_eq. bind_ok.
    reflexivity. }
  split; [rewrite (Hsame t Hd), list_lookup_insert_eq by exact Hi; reflexivity|].
  split.
  { intros j Hj. rewrite (Hsame t Hd), list_lookup_insert_ne by congruence.
    unfold readAt, dataHandle. rewrite Hd, Hb. bind_ok.
    rewrite length_insert. reflexivity. }
  split.
  { intros t2 j Hne. unfold readAt, dataHandle.
    destruct (m_data t2) as [id2|]; [|reflexivity].
    rewrite lookup_insert_ne by congruence. reflexivity. }
  split.
  { intros t2 Hd2. rewrite (Hsame t2 Hd2), list_lookup_insert_eq by exact Hi. reflexivity. }
  destruct (lookup_lt_is_Some_2 (hostData blk) i Hi) as [x Hx].
  exists x. unfold readAt, dataHandle. rewrite Hd, Hb. bind_ok. rewrite Hx. reflexivity.
Qed.

(** An access outside the storage, or without storage, is undefined for the
    read and for the write alike. *)
Lemma readAt_undefined_iff_writeAt (t : Tensor) (h : Heap) (i : nat) (v : DataType) :
  isOk (readAt t h i) <-> isOk (writeAt t h i v).
Proof.
  unfold readAt, writeAt, dataHandle.
  destruct (m_data t) as [id|]; [|split; intros [x Hx]; discriminate Hx].
  destruct (h !! id) as [blk|]; [|split; intros [x Hx]; discriminate Hx].
  bind_ok. bind_ok.
  destruct (decide (i < length (hostData blk))%nat) as [Hi|Hi].
  - destruct (lookup_lt_is_Some_2 (hostData blk) i Hi) as [x Hx]. rewrite Hx.
    split; intros _; eexists; reflexivity.
  - rewrite lookup_ge_None_2 by lia. split; intros [x Hx]; discriminate Hx.
Qed.

(** One more reshape keeps the element count, the name and the storage. *)
Lemma reshape_keeps (dev : DeviceType) (kind : ElementKind) (s : Shape) (t : Tensor) :
  dev = CPU_NAIVE \/ (1 <= dimension s)%nat ->
  exists r t',
    reshape dev kind s t = Ok (r, t') /\
    shapeSize (m_shape t') = shapeSize (m_shape t) /\
    m_name t' = m_name t /\ m_data t' = m_data t.
Proof.
  intros Hdef.
  destruct (decide (shapeSize s = shapeSize (m_shape t))) as [Heq|Hne].
  - destruct (reshape_accepted dev kind s t Heq Hdef) as (t' & Hr & _ & Hs & Hn & Hd & _).
    exists true, t'. rewrite Hs. auto.
  - exists false, t. rewrite (reshape_other_size dev kind s t Hne). auto.
Qed.

(** Whatever shapes a tensor is asked to take, one [reshape] after the
    other, accepted or refused, it keeps its element count, its name and its
    storage, so that every element reads as before; every call returns, for
    a CPU tensor and when each of the shapes has a dimension. *)
Theorem reshape_sequence_invariant (shapes : list Shape) (t : Tensor) (h : Heap) :
  DeviceUsed = CPU_NAIVE \/ Forall (fun s => (1 <= dimension s)%nat) shapes ->
  exists t',
    reshapeAll DeviceUsed elementKind shapes t = Ok t' /\
    shapeSize (m_shape t') = shapeSize (m_shape t) /\
    m_name t' = m_name t /\
    m_data t' = m_data t /\
    forall i, readAt t' h i = readAt t h i.
Proof.
  revert t. induction shapes as [|s shapes IH]; intros t Hdef.
  - exists t. repeat split.
  - assert (Hs : DeviceUsed = CPU_NAIVE \/ (1 <= dimension s)%nat).
    { destruct Hdef as [Hdev|Hall]; [left; exact Hdev|right].
      exact (Forall_inv Hall). }
    assert (Hrest : DeviceUsed = CPU_NAIVE
                    \/ Forall (fun s => (1 <= dimension s)%nat) shapes).
    { destruct Hdef as [Hdev|Hall]; [left; exact Hdev|right].
      exact (Forall_inv_tail Hall). }
    destruct (reshape_keeps DeviceUsed elementKind s t Hs) as (r & t1 & Hr & S1 & S2 & S3).
    destruct (IH t1 Hrest) as (t' & Hall & H1 & H2 & H3 & H4).
    exists t'. cbn [reshapeAll]. rewrite Hr. bind_ok. cbn [snd].
    split; [exact Hall|]. split; [congruence|]. split; [congruence|].
    split; [congruence|].
    intros i. rewrite H4. unfold readAt. rewrite S3. reflexivity.
Qed.

(** Two accepted reshapes in a row give the tensor of the second one alone,
    descriptor included; both calls return, for a CPU tensor and when both
    shapes have a dimension. *)
Theorem reshape_reshape (s1 s2 : Shape) (t : Tensor) :
  shapeSize s1 = shapeSize (m_shape t) ->
  shapeSize s2 = shapeSize (m_shape t) ->
  DeviceUsed = CPU_NAIVE \/ ((1 <= dimension s1)%nat /\ (1 <= dimension s2)%nat) ->
  exists t',
    reshape DeviceUsed elementKind s2 t = Ok (true, t') /\
    (r ← reshape DeviceUsed elementKind s1 t; reshape DeviceUsed elementKind s2 r.2)
    = Ok (true, t') /\
    m_shape t' = s2.
Proof.
  intros H1 H2 Hdef.
  rewrite (reshape_same_size DeviceUsed elementKind s1 t H1),
          (reshape_same_size DeviceUsed elementKind s2 t H2).
  destruct DeviceUsed eqn:Hdev.
  - exists (mkTensor s2 (m_name t) (m_data t) (m_gpuTensorDescriptor t)).
    split; [reflexivity|]. split; [|reflexivity].
    cbn [updateGPUTensorDescriptor]. repeat bind_ok. cbn [snd].
    rewrite reshape_same_size by (cbn [m_shape]; congruence). reflexivity.
  - destruct Hdef as [Hcpu|[Hn1 Hn2]]; [discriminate Hcpu|].
    destruct (proj2 (computeDescriptor_defined s1) Hn1) as [[[n1 d1] st1] Hc1].
    destruct (proj2 (computeDescriptor_defined s2) Hn2) as [[[n2 d2] st2] Hc2].
    exists (mkTensor s2 (m_name t) (m_data t) (DescSet (dataTypeOf elementKind) n2 d2 st2)).
    unfold updateGPUTensorDescriptor. cbn [m_shape m_name m_data].
    rewrite Hc1, Hc2.
    split; [reflexivity|]. split; [|reflexivity].
    repeat bind_ok. cbn [snd].
    rewrite reshape_same_size by (cbn [m_shape]; congruence).
    unfold updateGPUTensorDescriptor. cbn [m_shape m_name m_data]. rewrite Hc2. reflexivity.
Qed.



End TensorMoreProperties.

Lemma initList_shortfall_witness :
  exists t' h',
    initList CPU_NAIVE IsFloat 4 (fun _ _ => true) (fun i => inject_Z (Z.of_nat i))
      [(7 # 2)%Q] (construct [3] "t") ∅ = Ok (true, t', h') /\
    readAt t' h' 0 = Ok (7 # 2)%Q /\
    readAt t' h' 1 = Ok 1%Q /\
    readAt t' h' 2 = Ok 2%Q.
Proof.
  destruct (initList_shortfall CPU_NAIVE IsFloat 4 (fun _ _ => true)
              (fun i => inject_Z (Z.of_nat i)) [(7 # 2)%Q] (construct [3] "t") ∅
              eq_refl (fun H => match H with eq_refl => I end) eq_refl eq_refl)
    as (t' & h' & Hrun & _ & Hvals & Hrest).
  exists t', h'. split; [exact Hrun|].
  split; [exact (Hvals 0%nat (7 # 2)%Q eq_refl)|].
  split; [exact (Hrest 1%nat (le_n 1) eq_refl)|exact (Hrest 2%nat (le_S 1 1 (le_n 1)) eq_refl)].
Defined.

Lemma writeAt_readAt_witness :
  let t := mkTensor [3] "t" (Some 0%nat) DescCreated in
  let u := mkTensor [2] "u" (Some 1%nat) DescCreated in
  let h : gmap nat (Block Z) :=
    <[ 1%nat := mkBlock 1 8 [8; 9] [] ]> {[ 0%nat := mkBlock 1 12 [1; 2; 3] [] ]} in
  exists h', writeAt t h 1 5 = Ok h' /\
             readAt t h' 1 = Ok 5 /\ readAt t h' 0 = Ok 1 /\ readAt u h' 1 = Ok 9.
Proof.
  intros t u h.
  assert (Hw : writeAt t h 1 5
               = Ok (<[0%nat := mkBlock 1 12 [1; 5; 3] []]> h)) by reflexivity.
  destruct (writeAt_readAt t h _ 1 5 Hw) as (Hsame & Hother & Hblocks & _).
  assert (Hne : 0%nat <> 1%nat) by discriminate.
  assert (Hdata : m_data u <> m_data t) by discriminate.
  eexists. split; [exact Hw|]. split; [exact Hsame|].
  split; [exact (Hother 0%nat Hne)|exact (Hblocks u 1%nat Hdata)].
Defined.

Lemma reshape_sequence_invariant_witness :
  exists t',
    reshapeAll GPU_CUDA IsFloat [[3; 2]; [4; 2]; [6]] (construct [2; 3] "t") = Ok t' /\
    shapeSize (m_shape t') = 6 /\
    m_name t' = "t" /\
    m_data t' = None /\
    forall i, readAt t' (∅ : gmap nat (Block Z)) i = readAt (construct [2; 3] "t") ∅ i.
Proof.
  assert (Hdims : Forall (fun s : Shape => (1 <= dimension s)%nat) [[3; 2]; [4; 2]; [6]]).
  { repeat constructor. }
  exact (reshape_sequence_invariant GPU_CUDA IsFloat [[3; 2]; [4; 2]; [6]]
           (construct [2; 3] "t") ∅ (or_intror Hdims)).
Defined.

Lemma reshape_reshape_witness :
  exists t',
    reshape GPU_CUDA IsFloat [6] (construct [2; 3] "t") = Ok (true, t') /\
    (r ← reshape GPU_CUDA IsFloat [3; 2] (construct [2; 3] "t");
     reshape GPU_CUDA IsFloat [6] r.2) = Ok (true, t') /\
    m_shape t' = [6].
Proof.
  exact (reshape_reshape GPU_CUDA IsFloat [3; 2] [6] (construct [2; 3] "t") eq_refl eq_refl
           (or_intror (conj (le_S 1 1 (le_n 1)) (le_n 1)))).
Defined.


(** ** The cost kernel: no block, and the sign of the cost *)

(** When [labelSize * batchSize] is 0 in 32 bits (so for [labelSize = 0],
    and when the product is a multiple of [2^32]) the grid has no block: no
    thread runs, nothing is divided by [labelSize], and the first
    [batchSize] cells of [cost] are left at zero. *)
Theorem crossEntropyCUDAKernel_no_block (input label cost : list R)
    (labelSize batchSize : Z) (sched : list (Z * Z)) :
  uint_of (labelSize * batchSize) = 0 ->
  0 <= batchSize <= Z.of_nat (length cost) ->
  isSchedule (gridSizeOf labelSize batchSize) blockSize sched ->
  gridSizeOf labelSize batchSize = 0 /\
  sched = [] /\
  crossEntropyCUDAKernel sched input label cost labelSize batchSize
  = Ok (replicate (Z.to_nat batchSize) 0%R ++ drop (Z.to_nat batchSize) cost).
Proof.
  intros HN HB Hsched.
  assert (Hg : gridSizeOf labelSize batchSize = 0).
  { unfold gridSizeOf. rewrite HN. reflexivity. }
  unfold isSchedule in Hsched. rewrite Hg in Hsched.
  assert (Hnil : sched = []) by (apply Permutation_nil; symmetry; exact Hsched).
  split; [exact Hg|]. split; [exact Hnil|]. subst sched.
  unfold crossEntropyCUDAKernel, memsetZero. rewrite decide_True by lia. reflexivity.
Qed.

Lemma crossEntropyCUDAKernel_no_block_witness :
  crossEntropyCUDAKernel [] [] [] [5%R; 6%R; 7%R] 0 2 = Ok [0%R; 0%R; 7%R] /\
  uint_of (2147483648 * 2) = 0 /\
  crossEntropyCUDAKernel [] [(1 / 2)%R] [1%R] [5%R; 6%R; 7%R] 2147483648 2
  = Ok [0%R; 0%R; 7%R].
Proof.
  assert (Hs : forall l b, gridSizeOf l b = 0 -> isSchedule (gridSizeOf l b) blockSize [])
    by (intros l b ->; exact (Permutation_refl [])).
  assert (H1 : 0 <= 2 <= Z.of_nat (length [5%R; 6%R; 7%R])) by (simpl; lia).
  destruct (crossEntropyCUDAKernel_no_block [] [] [5%R; 6%R; 7%R] 0 2 []
              eq_refl H1 (Hs 0 2 eq_refl)) as (_ & _ & Hrun1).
  destruct (crossEntropyCUDAKernel_no_block [(1 / 2)%R] [1%R] [5%R; 6%R; 7%R]
              2147483648 2 [] eq_refl H1 (Hs 2147483648 2 eq_refl)) as (_ & _ & Hrun2).
  split; [exact Hrun1|]. split; [reflexivity|exact Hrun2].
Defined.

Lemma crossEntropyTerm_nonneg (l x : R) :
  (0 <= l <= 1)%R -> (0 < x < 1)%R -> (0 <= crossEntropyTerm l x)%R.
Proof.
  intros Hl Hx. unfold crossEntropyTerm.
  assert (Hneg : forall y, (0 < y < 1)%R -> (ln y < 0)%R).
  { intros y Hy. rewrite <- ln_1. apply ln_increasing; lra. }
  assert (H1 : (ln x < 0)%R) by (apply Hneg; lra).
  assert (H2 : (ln (1 - x) < 0)%R) by (apply Hneg; lra).
  assert (H3 : (0 <= l * - ln x)%R) by (apply Rmult_le_pos; lra).
  assert (H4 : (0 <= (1 - l) * - ln (1 - x))%R) by (apply Rmult_le_pos; lra).
  lra.
Qed.

Lemma termAt_nonneg (input label : list R) (p : Z) :
  length input = length label ->
  Forall (fun x => (0 < x < 1)%R) input ->
  Forall (fun l => (0 <= l <= 1)%R) label ->
  (0 <= termAt input label p)%R.
Proof.
  intros Hlen Hin Hlab. unfold termAt.
  destruct (decide (Z.to_nat p < length input)%nat) as [Hp|Hp].
  - destruct (lookup_lt_is_Some_2 input (Z.to_nat p) Hp) as [x Hx].
    destruct (lookup_lt_is_Some_2 label (Z.to_nat p) ltac:(lia)) as [l Hl].
    rewrite (nth_lookup_Some input _ 0%R x Hx), (nth_lookup_Some label _ 0%R l Hl).
    rewrite Forall_lookup in Hin. rewrite Forall_lookup in Hlab.
    apply crossEntropyTerm_nonneg; [exact (Hlab _ _ Hl)|exact (Hin _ _ Hx)].
  - rewrite !nth_overflow by lia.
    unfold crossEntropyTerm. rewrite Rminus_0_r, ln_1. lra.
Qed.

Lemma sumR_nonneg (l : list R) : Forall (fun r => (0 <= r)%R) l -> (0 <= sumR l)%R.
Proof.
  unfold sumR. induction 1 as [|r l Hr _ IH]; simpl; lra.
Qed.

(** The cost of a batch is never negative when the inputs are
    probabilities strictly between 0 and 1 and the labels lie in [0, 1]:
    with [labelSize * batchSize] a multiple of the block size, every cell of
    [cost] is non-negative after the launch, in whatever order the threads
    run. *)
Theorem crossEntropyCUDAKernel_cost_nonneg (input label cost : list R)
    (labelSize batchSize : Z) (sched : list (Z * Z)) :
  0 < labelSize -> 0 <= batchSize ->
  labelSize * batchSize < 2 ^ 31 ->
  (labelSize * batchSize) mod blockSize = 0 ->
  Z.of_nat (length input) = labelSize * batchSize ->
  Z.of_nat (length label) = labelSize * batchSize ->
  Z.of_nat (length cost) = batchSize ->
  Forall (fun x => (0 < x < 1)%R) input ->
  Forall (fun l => (0 <= l <= 1)%R) label ->
  isSchedule (gridSizeOf labelSize batchSize) blockSize sched ->
  exists cost',
    crossEntropyCUDAKernel sched input label cost labelSize batchSize = Ok cost' /\
    length cost' = length cost /\
    Forall (fun c => (0 <= c)%R) cost'.
Proof.
  intros HL HB HN Hrem Hin Hlab Hcost Hprob Hlabel Hsched.
  assert (HN0 : 0 <= labelSize * batchSize) by nia.
  unfold isSchedule in Hsched. rewrite gridSizeOf_small in Hsched by lia.
  rewrite decide_False in Hsched by lia.
  assert (Hexact : labelSize * batchSize / blockSize * blockSize = labelSize * batchSize).
  { pose proof (Z.div_mod (labelSize * batchSize) blockSize ltac:(unfold blockSize; lia)).
    lia. }
  unfold crossEntropyCUDAKernel, memsetZero. rewrite decide_True by lia. bind_ok.
  set (cost0 := replicate (Z.to_nat batchSize) 0%R ++ drop (Z.to_nat batchSize) cost).
  assert (Hlen0 : length cost0 = Z.to_nat batchSize).
  { unfold cost0. rewrite length_app, length_replicate, length_drop. lia. }
  destruct (runThreads_within input label labelSize batchSize HL HB Hin Hlab sched HN)
    with (cost := cost0) as (cost' & Hrun & Hlen & Hcells).
  { intros b t Hbt. rewrite Hsched in Hbt. apply elem_of_gridThreads in Hbt.
    unfold blockSize in *. nia. }
  { lia. }
  exists cost'. split; [exact Hrun|]. split; [lia|].
  apply Forall_lookup. intros i c Hc.
  assert (Hi : (i < length cost0)%nat)
    by (rewrite <- Hlen; apply lookup_lt_is_Some; eauto).
  rewrite <- (nth_lookup_Some cost' i 0%R c Hc), (Hcells i Hi).
  assert (H0 : nth i cost0 0%R = 0%R).
  { unfold cost0. rewrite nth_lookup, lookup_app_l by (rewrite length_replicate; lia).
    rewrite lookup_replicate_2 by lia. reflexivity. }
  rewrite H0, Rplus_0_l. unfold contribution. apply sumR_nonneg.
  apply Forall_fmap, Forall_forall. intros p _. simpl.
  apply termAt_nonneg; [lia|assumption|assumption].
Qed.

Lemma crossEntropyCUDAKernel_cost_nonneg_witness :
  let input := replicate 1024 (1 / 2)%R in
  let label := replicate 1024 1%R in
  Forall (fun x => (0 < x < 1)%R) input /\
  Forall (fun l => (0 <= l <= 1)%R) label /\
  exists cost',
    crossEntropyCUDAKernel (gridThreads 1 1024) input label [(-5)%R] 1024 1 = Ok cost' /\
    length cost' = length [(-5)%R] /\
    Forall (fun c => (0 <= c)%R) cost'.
Proof.
  intros input label.
  assert (Hs : isSchedule (gridSizeOf 1024 1) blockSize (gridThreads 1 1024))
    by exact (Permutation_refl (gridThreads 1 1024)).
  assert (Hin : Forall (fun x => (0 < x < 1)%R) input)
    by (apply Forall_replicate; lra).
  assert (Hlab : Forall (fun l => (0 <= l <= 1)%R) label)
    by (apply Forall_replicate; lra).
  split; [exact Hin|]. split; [exact Hlab|].
  exact (crossEntropyCUDAKernel_cost_nonneg input label [(-5)%R] 1024 1
           (gridThreads 1 1024)
           eq_refl (fun H => match H with eq_refl => I end) eq_refl eq_refl
           eq_refl eq_refl eq_refl Hin Hlab Hs).
Defined.

(** ** The gradient check: a gradient that is too short, and the integer test *)

Section GradientMoreProperties.

Context {S : Type} `{ScalarType S}.
Variable func : list S -> S * list S.







End GradientMoreProperties.



(** ** The descriptor and the elements of the tensor *)

Lemma sumZ_app (l1 l2 : list Z) : sumZ (l1 ++ l2) = sumZ l1 + sumZ l2.
Proof. unfold sumZ. induction l1 as [|a l1 IH]; simpl; lia. Qed.

Lemma sumZ_reverse (l : list Z) : sumZ (reverse l) = sumZ l.
Proof.
  induction l as [|a l IH]; [reflexivity|].
  rewrite reverse_cons, sumZ_app, IH. unfold sumZ. simpl. lia.
Qed.

Lemma productOf_reverse (l : list Z) : productOf (reverse l) = productOf l.
Proof.
  induction l as [|a l IH]; [reflexivity|].
  rewrite reverse_cons, productOf_snoc, IH. unfold productOf. simpl. lia.
Qed.

Lemma zip_with_fmap_same {A B C D : Type} (f : B -> C -> D) (g : A -> B) (k : A -> C)
    (l : list A) :
  zip_with f (g <$> l) (k <$> l) = (fun a => f (g a) (k a)) <$> l.
Proof. induction l as [|a l IH]; [reflexivity|]. simpl. f_equal. exact IH. Qed.

(** The first [k] logical dimensions: the product of their extents, and the
    largest offset they reach. *)
Lemma claimed_prefix (shape : Shape) (k : nat) :
  productOf (claimedExtent shape <$> seq 0 k) = productOf (take k shape) /\
  sumZ ((fun j => (claimedExtent shape j - 1) * claimedStride shape j) <$> seq 0 k)
  = productOf (take k shape) - 1.
Proof.
  induction k as [|k [IHp IHs]]; [split; reflexivity|].
  rewrite seq_S, !fmap_app, !list_fmap_singleton, productOf_snoc, sumZ_app, IHp, IHs.
  simpl (0 + k)%nat.
  unfold claimedExtent, claimedStride, dimension.
  destruct (decide (k < length shape)%nat) as [Hk|Hk].
  - destruct (lookup_lt_is_Some_2 shape k Hk) as [d Hd].
    rewrite (nth_lookup_Some shape k 0 d Hd), (take_S_r shape k d Hd), productOf_snoc.
    replace (k `min` (length shape - 1))%nat with k by lia.
    unfold sumZ. simpl. split; lia.
  - rewrite (take_ge shape k), (take_ge shape (Datatypes.S k)) by lia.
    unfold sumZ. simpl. split; lia.
Qed.

(** For a shape of at least one dimension whose extents and partial products
    are [int] values, the descriptor has as many elements as the tensor (the
    padded slots have the extent 1) and spans exactly these elements: the
    offset reached with every index at its last value, plus one, is the
    size of the shape. *)
Theorem computeDescriptor_spans_elements (shape : Shape) :
  (1 <= dimension shape)%nat ->
  fitsInt shape ->
  exists dims strides,
    computeDescriptor shape = Ok ((dimension shape `max` 4)%nat, dims, strides) /\
    productOf dims = shapeSize shape /\
    largestOffset dims strides + 1 = shapeSize shape.
Proof.
  intros Hn Hfit.
  rewrite (computeDescriptor_reverse shape Hn), atLeastDimsOf_max.
  set (A := (dimension shape `max` 4)%nat).
  assert (Hext : extentRec shape <$> seq 0 A = claimedExtent shape <$> seq 0 A).
  { apply list_fmap_ext. intros i j _.
    rewrite extentRec_stored. exact (proj1 (stored_is_claimed shape j Hfit)). }
  assert (Hstr : strideRec shape <$> seq 0 A = claimedStride shape <$> seq 0 A).
  { apply list_fmap_ext. intros i j _.
    rewrite (strideRec_stored shape j Hn). exact (proj2 (stored_is_claimed shape j Hfit)). }
  assert (Hsize : shapeSize shape = productOf (take A shape)).
  { rewrite take_ge by (unfold A, dimension; lia).
    destruct shape; [simpl in Hn; lia|reflexivity]. }
  destruct (claimed_prefix shape A) as [Hp Hs].
  eexists _, _. split; [reflexivity|]. split.
  - rewrite productOf_reverse, Hext, Hp, Hsize. reflexivity.
  - unfold largestOffset. rewrite Hext, Hstr, <- !fmap_reverse, zip_with_fmap_same.
    rewrite fmap_reverse, sumZ_reverse, Hs, Hsize. lia.
Qed.

Lemma computeDescriptor_spans_elements_witness :
  fitsInt [2; 3; 5; 7; 11] /\
  exists dims strides,
    computeDescriptor [2; 3; 5; 7; 11] = Ok (5%nat, dims, strides) /\
    productOf dims = 2310 /\
    largestOffset dims strides + 1 = 2310.
Proof.
  assert (Hfit : fitsInt [2; 3; 5; 7; 11]).
  { split.
    - repeat constructor; lia.
    - intros i. unfold claimedStride. simpl.
      do 5 (destruct i as [|i]; [vm_compute; reflexivity|]). vm_compute. reflexivity. }
  split; [exact Hfit|].
  exact (computeDescriptor_spans_elements [2; 3; 5; 7; 11] (le_S _ _ (le_S _ _ (le_S _ _ (le_S _ _ (le_n 1))))) Hfit).
Defined.
